(** * fwatch: polling file watcher with debounced command dispatch

    A shallow embedding of [src/fwatch/fwatch.py] and the properties of
    its snapshot model, directory scanner, change classification, pattern
    filter, debounce clock, command execution, watch loop and configuration
    persistence.

    Conventions of the embedding.
    - Python floats ([st_mtime], [time.time()], [poll_interval]) are
      modelled by the rational numbers they denote; NaN and the
      infinities are outside the model.
    - Everything the program reads from its environment (the file
      system, the clock, child processes, signals, the iteration order
      of a Python set) is an oracle of a [World], indexed by a logical
      tick that the program advances at each such read.
    - Everything the program does to its environment is appended to a
      [trace] of [Effect]s; the mutable attributes of [ChangeHandler] and
      [FileWatcher] are fields of [State]. The [print] calls of [start]
      and of its signal handler, which only decorate the console, are
      not traced; [ChangeHandler.log] and the output of child processes
      are. Writing a log line reads the clock and the log file at the
      current tick without advancing it.
    - [os.stat] fails with [OSError] only; a SIGINT is taken during the
      sleep of the watch loop.
    - [time.sleep] raises [ValueError] on a negative interval and
      [OverflowError] on one of 2^63 nanoseconds or more: the watch loop
      is that of a configuration whose [poll_interval] it accepts, see
      [sleepable]. Writing to the console does not fail. *)

From Stdlib Require Import Ascii String ZArith QArith Lqa.
From stdpp Require Import base option list gmap strings pretty.

Open Scope string_scope.
Open Scope list_scope.

(** ** Configuration record: [class WatcherConfig] *)

Record WatcherConfig := mkWatcherConfig {
  watch_dirs : list string;
  watch_patterns : list string;
  exclude_patterns : list string;
  command : string;
  on_create : string;
  on_modify : string;
  on_delete : string;
  on_move : string;
  debounce_ms : Z;
  poll_interval : Q;
  recurse : bool;
  oneshot : bool;
  initial_run : bool;
  show_events : bool;
  log_file : option string;
}.

(** [WatcherConfig.__init__] *)
Definition WatcherConfig_init : WatcherConfig := {|
  watch_dirs := [];
  watch_patterns := [];
  exclude_patterns := [];
  command := "";
  on_create := "";
  on_modify := "";
  on_delete := "";
  on_move := "";
  debounce_ms := 300;
  poll_interval := 1;
  recurse := true;
  oneshot := false;
  initial_run := false;
  show_events := false;
  log_file := None;
|}.

(** ** File snapshot: [class FileInfo]

    The attributes [path], [mtime], [size], [exists] carry the prefix
    [fi_] ([exists] is a keyword and [size] a stdpp operation). *)

Record FileInfo := mkFileInfo {
  fi_path : string;
  fi_mtime : Q;
  fi_size : Z;
  fi_exists : bool;
}.

(** [FileInfo.changed] *)
Definition changed (self other : FileInfo) : bool :=
  negb (Bool.eqb (fi_exists self) (fi_exists other))
  || negb (Qeq_bool (fi_mtime self) (fi_mtime other))
  || negb (fi_size self =? fi_size other)%Z.

(** ** Python string and path primitives *)

(** [pattern in s] *)
Fixpoint contains (pattern s : string) : bool :=
  String.prefix pattern s ||
  match s with
  | EmptyString => false
  | String _ s' => contains pattern s'
  end.

(** [s.startswith(p)] *)
Definition startswith (s p : string) : bool := String.prefix p s.

(** [s.split(c)] for a one-character separator *)
Fixpoint split_on (c : ascii) (s : string) : list string :=
  match s with
  | EmptyString => [EmptyString]
  | String a s' =>
      if Ascii.eqb a c then EmptyString :: split_on c s'
      else match split_on c s' with
           | [] => [String a EmptyString]
           | hd :: tl => String a hd :: tl
           end
  end.

(** [s.rfind(c)], [None] standing for -1 *)
Fixpoint rfind (c : ascii) (s : string) : option nat :=
  match s with
  | EmptyString => None
  | String a s' =>
      match rfind c s' with
      | Some i => Some (S i)
      | None => if Ascii.eqb a c then Some 0%nat else None
      end
  end.

(** [pathlib.PurePosixPath(p).name]: the last component, once empty and
    [.] components are dropped. *)
Definition path_name (p : string) : string :=
  List.last (List.filter (λ x, negb (String.eqb x "") && negb (String.eqb x "."))
                         (split_on "/" p)) "".

(** [pathlib.PurePosixPath(p).suffix] *)
Definition path_suffix (p : string) : string :=
  let name := path_name p in
  match rfind "." name with
  | Some i =>
      if (0 <? i)%nat && (i <? String.length name - 1)%nat
      then String.substring i (String.length name - i) name
      else ""
  | None => ""
  end.

(** [posixpath.join(a, b)] *)
Definition os_path_join (a b : string) : string :=
  if startswith b "/" then b
  else if String.eqb a "" || startswith (String.rev a) "/" then a +:+ b
  else a +:+ "/" +:+ b.

Definition nonempty (s : string) : bool := negb (String.eqb s "").

(** ** The environment *)

(** What [subprocess.run(..., timeout=300)] can do. *)
Inductive Outcome :=
| Completed (returncode : Z) (stdout stderr : string)
| TimeoutExpired
| LaunchError (e : string).

Record World := mkWorld {
  os_getcwd : string;
  os_path_abspath : string → string;
  os_path_exists : nat → string → bool;
  (** [os.walk(top)]: the [(root, files)] pairs in the order they are
      yielded; the [dirs] component is not used by the program. *)
  os_walk : nat → string → list (string * list string);
  (** [os.stat(p)]: [(st_mtime, st_size)], or [None] for [OSError]. *)
  os_stat : nat → string → option (Q * Z);
  time_time : nat → Q;
  strftime_now : nat → string;
  subprocess_run : nat → string → Outcome;
  (** appending a line to the log file: [Some e] when it raises [e] *)
  open_append : nat → string → option string;
  (** the order in which a Python set is iterated, see [iter_set] *)
  set_order : nat → list string;
  (** whether SIGINT arrives during the sleep that starts at this tick *)
  sigint : nat → bool;
}.

Inductive Effect :=
| Scan (directory : string)
| Sleep (seconds : Q)
| Change (path : string) (old_info new_info : FileInfo)
| Print (line : string)
| PrintErr (line : string)
| Append (file line : string)
| Exec (command : string).

(** The attributes of [ChangeHandler] ([last_change], [file_states],
    [stop_flag]) and of [FileWatcher] ([log_history]), the logical tick
    and the trace of effects so far, oldest first. [Change p o n] records
    a call [handle_change(p, o, n)] of the watch loop. *)
Record State := mkState {
  last_change : Q;
  file_states : gmap string FileInfo;
  stop_flag : bool;
  log_history : list string;
  tick : nat;
  trace : list Effect;
}.

(** [ChangeHandler.__init__] and [FileWatcher.__init__] *)
Definition State_init : State := {|
  last_change := 0;
  file_states := ∅;
  stop_flag := false;
  log_history := [];
  tick := 0;
  trace := [];
|}.

Definition set_last_change (x : Q) (st : State) : State :=
  mkState x (file_states st) (stop_flag st) (log_history st) (tick st) (trace st).
Definition set_file_states (x : gmap string FileInfo) (st : State) : State :=
  mkState (last_change st) x (stop_flag st) (log_history st) (tick st) (trace st).
Definition set_stop_flag (x : bool) (st : State) : State :=
  mkState (last_change st) (file_states st) x (log_history st) (tick st) (trace st).
Definition set_log_history (x : list string) (st : State) : State :=
  mkState (last_change st) (file_states st) (stop_flag st) x (tick st) (trace st).
Definition set_tick (x : nat) (st : State) : State :=
  mkState (last_change st) (file_states st) (stop_flag st) (log_history st) x (trace st).
Definition set_trace (x : list Effect) (st : State) : State :=
  mkState (last_change st) (file_states st) (stop_flag st) (log_history st) (tick st) x.

(** ** A state monad for the program's methods *)

Definition M (A : Type) : Type := State → A * State.

#[export] Instance M_ret : MRet M := λ A (a : A) st, (a, st).
#[export] Instance M_bind : MBind M :=
  λ A B (f : A → M B) (m : M A) st, let (a, st') := m st in f a st'.

Definition get : M State := λ st, (st, st).
Definition modify (f : State → State) : M unit := λ st, (tt, f st).
Definition emit (e : Effect) : M unit :=
  modify (λ st, set_trace (trace st ++ [e]) st).
Definition next_tick : M nat := λ st, (tick st, set_tick (S (tick st)) st).
Definition when (b : bool) (m : M unit) : M unit := if b then m else mret tt.

(** [for x in l: body(x)] *)
Fixpoint for_each {A} (l : list A) (body : A → M unit) : M unit :=
  match l with
  | [] => mret tt
  | x :: l' => body x;; for_each l' body
  end.

(** [for x in l: acc = body(acc, x)] *)
Fixpoint fold_each {A B} (l : list A) (body : B → A → M B) (acc : B) : M B :=
  match l with
  | [] => mret acc
  | x :: l' => acc' ← body acc x; fold_each l' body acc'
  end.

Definition exec {A} (m : M A) (st : State) : State := (m st).2.
Definition eval {A} (m : M A) (st : State) : A := (m st).1.

Section Watcher.

Context (w : World) (config : WatcherConfig).

(** *** [FileInfo.update] and [FileInfo.__init__] *)

Definition FileInfo_update (self : FileInfo) : M FileInfo :=
  n ← next_tick;
  mret match os_stat w n (fi_path self) with
       | Some (st_mtime, st_size) =>
           mkFileInfo (fi_path self) st_mtime st_size true
       | None =>
           mkFileInfo (fi_path self) (fi_mtime self) (fi_size self) false
       end.

Definition FileInfo_init (path : string) : M FileInfo :=
  FileInfo_update (mkFileInfo path 0 0 false).

(** *** [FileWatcher._log_to_file] and [ChangeHandler.log] *)

Definition _log_to_file (message : string) : M unit :=
  modify (λ st,
    let h := log_history st ++ [message] in
    set_log_history
      (if (1000 <? length h)%nat then drop (length h - 1000) h else h) st).

Definition newline : string := String (ascii_of_nat 10) EmptyString.

Definition log (message : string) : M unit :=
  st ← get;
  let log_line := "[" +:+ strftime_now w (tick st) +:+ "] " +:+ message in
  emit (Print log_line);;
  _log_to_file log_line;;
  match log_file config with
  | Some f =>
      when (nonempty f)
        match open_append w (tick st) f with
        | None => emit (Append f (log_line +:+ newline))
        | Some e => emit (PrintErr ("⚠️ Failed to write to log file: " +:+ e))
        end
  | None => mret tt
  end.

(** *** [ChangeHandler.should_process] *)

Definition include_match (path pattern : string) : bool :=
  (startswith pattern "." && String.eqb (path_suffix path) pattern)
  || contains pattern path.

Definition should_process (path : string) : bool :=
  if match watch_patterns config with
     | [] => false
     | _ => negb (existsb (include_match path) (watch_patterns config))
     end
  then false
  else if match exclude_patterns config with
          | [] => false
          | _ => existsb (λ pattern, contains pattern path) (exclude_patterns config)
          end
  then false
  else true.

(** *** [ChangeHandler._should_run] *)

Definition _should_run : M bool :=
  n ← next_tick;
  let now := time_time w n in
  st ← get;
  let elapsed := ((now - last_change st) * 1000)%Q in
  if Qle_bool (inject_Z (debounce_ms config)) elapsed
  then modify (set_last_change now);; mret true
  else mret false.

(** *** [ChangeHandler._run_command] *)

(** Lines 166-195: the command is run, its outcome logged, and the stop
    flag set in oneshot mode. *)
Definition launch (command event_type : string) : M unit :=
  log ("🚀 Running: " +:+ command);;
  n ← next_tick;
  emit (Exec command);;
  match subprocess_run w n command with
  | Completed returncode stdout stderr =>
      when (nonempty stdout) (emit (Print stdout));;
      when (nonempty stderr) (emit (PrintErr stderr));;
      if (returncode =? 0)%Z
      then log ("✅ " +:+ event_type +:+ " command succeeded")
      else log ("❌ " +:+ event_type +:+ " command failed (exit "
                +:+ pretty returncode +:+ ")")
  | TimeoutExpired => log "⏰ Command timed out"
  | LaunchError e => log ("❌ Command error: " +:+ e)
  end;;
  when (oneshot config) (modify (set_stop_flag true)).

Definition _run_command (command event_type path : string) : M unit :=
  if negb (nonempty command) then mret tt
  else
    ok ← _should_run;
    if negb ok then when (show_events config) (log ("⏳ Debouncing: " +:+ path))
    else launch command event_type.

(** *** [ChangeHandler.handle_change]

    The unused local [is_dir] is left out. *)

Definition handle_change (path : string) (old_info new_info : FileInfo) : M unit :=
  let generic := command config in
  if negb (should_process path) then mret tt
  else
    '(event_type, command) ←
      (if fi_exists old_info && negb (fi_exists new_info) then
         when (show_events config) (log ("🗑️ File deleted: " +:+ path));;
         mret ("delete", on_delete config)
       else if negb (fi_exists old_info) && fi_exists new_info then
         when (show_events config) (log ("📄 File created: " +:+ path));;
         mret ("create", on_create config)
       else
         when (show_events config) (log ("📝 File modified: " +:+ path));;
         mret ("modify", on_modify config));
    if nonempty command then _run_command command event_type path
    else if nonempty generic then _run_command generic event_type path
    else mret tt.

(** *** [FileWatcher._scan_directory]

    [FileInfo(filepath)] turns the [OSError] of a failing [os.stat] into
    [exists = False] itself, so the [except Exception: pass] around it
    has nothing to catch. [break] after the first [(root, files)] pair
    when [recurse] is off. *)

(** The [(root, files)] pairs that the scan of [directory] visits when
    [os.walk] is read at tick [n]. *)
Definition visited (n : nat) (directory : string) : list (string * list string) :=
  let walk := os_walk w n directory in
  if recurse config then walk else take 1 walk.

(** The body of [for filename in files]. *)
Definition scan_file (root : string) (file_map : gmap string FileInfo)
    (filename : string) : M (gmap string FileInfo) :=
  let filepath := os_path_join root filename in
  info ← FileInfo_init filepath;
  mret (<[filepath := info]> file_map).

(** The body of [for root, dirs, files in os.walk(directory)]. *)
Definition scan_files (file_map : gmap string FileInfo)
    (entry : string * list string) : M (gmap string FileInfo) :=
  let '(root, files) := entry in
  fold_each files (scan_file root) file_map.

Definition _scan_directory (directory : string) : M (gmap string FileInfo) :=
  emit (Scan directory);;
  n ← next_tick;
  fold_each (visited n directory) scan_files ∅.

(** *** The watch loop of [FileWatcher.start] *)

(** Iterating over a Python set: some enumeration without repetition of
    its elements, chosen by the world. *)
Definition reorder (order elems : list string) : list string :=
  filter (λ x, x ∈ elems) (remove_dups order) ++ filter (λ x, x ∉ order) elems.

Definition iter_set (s : gset string) : M (list string) :=
  n ← next_tick;
  mret (reorder (set_order w n) (elements s)).

(** [self.handler.handle_change(path, old_info, new_info)] as called from
    the loop: the call is recorded in the trace. *)
Definition call_handle_change (path : string) (old_info new_info : FileInfo) : M unit :=
  emit (Change path old_info new_info);;
  handle_change path old_info new_info.

(** The body of [for path in all_paths] (lines 323-336). *)
Definition compare_path (current_states : gmap string FileInfo) (path : string) : M unit :=
  st ← get;
  match file_states st !! path, current_states !! path with
  | Some old_info, Some new_info =>
      when (changed old_info new_info) (call_handle_change path old_info new_info)
  | Some old_info, None =>
      deleted_info ← FileInfo_init path;
      call_handle_change path old_info
        (mkFileInfo (fi_path deleted_info) (fi_mtime deleted_info)
                    (fi_size deleted_info) false)
  | None, Some new_info =>
      old_info ← FileInfo_init path;
      call_handle_change path old_info new_info
  | None, None => mret tt
  end.

(** Lines 320-339: compare the stored states with [current_states],
    then store [current_states]. *)
Definition detect_changes (current_states : gmap string FileInfo) : M unit :=
  st ← get;
  all_paths ← iter_set (dom (file_states st) ∪ dom current_states);
  for_each all_paths (compare_path current_states);;
  modify (set_file_states current_states).

(** Lines 315-317; [d.update(m)] is [m ∪ d]. *)
Definition scan_all (watch_paths : list string) : M (gmap string FileInfo) :=
  fold_each watch_paths
    (λ current_states dir_path,
       file_map ← _scan_directory dir_path;
       mret (file_map ∪ current_states))
    ∅.

(** [FileWatcher.stop] *)
Definition stop : M unit := modify (set_stop_flag true).

(** One iteration after the sleep: lines 314-339. *)
Definition poll_cycle (watch_paths : list string) : M unit :=
  current_states ← scan_all watch_paths;
  detect_changes current_states.

(** The [while not self.handler.stop_flag] loop with its [finally]
    clause. [fuel] bounds the number of iterations looked at: [None]
    means the loop is still running after [fuel] iterations, [Some c]
    that [start] is left with exit code [c]. A SIGINT is taken during
    the sleep: the handler calls [stop] and [sys.exit(0)], and the
    [finally] clause calls [stop] again. *)
Fixpoint watch_loop (fuel : nat) (watch_paths : list string) : M (option Z) :=
  match fuel with
  | O => mret None
  | S fuel' =>
      st ← get;
      if stop_flag st then stop;; mret (Some 0%Z)
      else
        n ← next_tick;
        emit (Sleep (poll_interval config));;
        if sigint w n then stop;; stop;; mret (Some 0%Z)
        else poll_cycle watch_paths;; watch_loop fuel' watch_paths
  end.

(** *** [FileWatcher.start] *)

(** The body of [for dir_path in watch_dirs] (lines 266-272). *)
Definition check_root (watch_paths : list string) (dir_path : string)
    : M (list string) :=
  let dir_path := os_path_abspath w dir_path in
  n ← next_tick;
  mret (if os_path_exists w n dir_path
        then watch_paths ++ [dir_path] else watch_paths).

(** Line 262: the configured watch roots, or the current directory
    when none is configured. *)
Definition effective_watch_dirs : list string :=
  match watch_dirs config with [] => [os_getcwd w] | l => l end.

Definition resolve_watch_paths : M (list string) :=
  fold_each effective_watch_dirs check_root [].

Definition initial_scan (watch_paths : list string) : M unit :=
  for_each watch_paths
    (λ dir_path,
       file_map ← _scan_directory dir_path;
       modify (λ st, set_file_states (file_map ∪ file_states st) st)).

Definition start (fuel : nat) : M (option Z) :=
  watch_paths ← resolve_watch_paths;
  match watch_paths with
  | [] => mret (Some 1%Z)
  | _ =>
      initial_scan watch_paths;;
      when (initial_run config && nonempty (command config))
           (_ ← next_tick; emit (Exec (command config)));;
      watch_loop fuel watch_paths
  end.

End Watcher.

(** ** Configuration persistence: [to_dict], [save_config], [load_config] *)

(** The Python values that [json.dump] writes and [json.load] reads
    back. A file written by [json.dump] holds one such document; the
    text encoding of the [json] module is not modelled. *)
#[local] Unset Elimination Schemes.
Inductive json :=
| JNull
| JBool (b : bool)
| JInt (n : Z)
| JFloat (x : Q)
| JString (s : string)
| JArray (l : list json)
| JObject (members : list (string * json)).
#[local] Set Elimination Schemes.

Definition json_strings (l : list string) : json := JArray (JString <$> l).
Definition json_optional (o : option string) : json :=
  match o with Some s => JString s | None => JNull end.

(** [WatcherConfig.to_dict]: the entries of the dict, in order. *)
Definition to_dict (self : WatcherConfig) : list (string * json) :=
  [ ("watch_dirs", json_strings (watch_dirs self));
    ("watch_patterns", json_strings (watch_patterns self));
    ("exclude_patterns", json_strings (exclude_patterns self));
    ("command", JString (command self));
    ("on_create", JString (on_create self));
    ("on_modify", JString (on_modify self));
    ("on_delete", JString (on_delete self));
    ("on_move", JString (on_move self));
    ("debounce_ms", JInt (debounce_ms self));
    ("poll_interval", JFloat (poll_interval self));
    ("recurse", JBool (recurse self));
    ("oneshot", JBool (oneshot self));
    ("initial_run", JBool (initial_run self));
    ("show_events", JBool (show_events self));
    ("log_file", json_optional (log_file self)) ].

(** [FileWatcher.save_config]: [files] maps a file path to the document
    it holds. *)
Definition save_config (self : WatcherConfig) (filepath : string)
    (files : gmap string json) : gmap string json :=
  <[filepath := JObject (to_dict self)]> files.

(** The dict that [json.load] builds from an object: a later member
    replaces an earlier one with the same key. *)
Definition json_load_object (members : list (string * json)) : gmap string json :=
  foldl (λ data kv, <[kv.1 := kv.2]> data) ∅ members.

(** [data.get(key, default)] *)
Definition dict_get (data : gmap string json) (key : string) (default : json) : json :=
  match data !! key with Some v => v | None => default end.

(** A [WatcherConfig] object as [load_config] leaves it: Python checks
    no types, each attribute holds whatever value the file gave. *)
Record LoadedConfig := mkLoadedConfig {
  l_watch_dirs : json;
  l_watch_patterns : json;
  l_exclude_patterns : json;
  l_command : json;
  l_on_create : json;
  l_on_modify : json;
  l_on_delete : json;
  l_on_move : json;
  l_debounce_ms : json;
  l_poll_interval : json;
  l_recurse : json;
  l_oneshot : json;
  l_initial_run : json;
  l_show_events : json;
  l_log_file : json;
}.

(** [FileWatcher.load_config]; [None] when [open] or [data.get] raises
    (no such file, or a document that is not an object). *)
Definition load_config (filepath : string) (files : gmap string json)
    : option LoadedConfig :=
  match files !! filepath with
  | Some (JObject members) =>
      let data := json_load_object members in
      Some {|
        l_watch_dirs := dict_get data "watch_dirs" (JArray []);
        l_watch_patterns := dict_get data "watch_patterns" (JArray []);
        l_exclude_patterns := dict_get data "exclude_patterns" (JArray []);
        l_command := dict_get data "command" (JString "");
        l_on_create := dict_get data "on_create" (JString "");
        l_on_modify := dict_get data "on_modify" (JString "");
        l_on_delete := dict_get data "on_delete" (JString "");
        l_on_move := dict_get data "on_move" (JString "");
        l_debounce_ms := dict_get data "debounce_ms" (JInt 300);
        l_poll_interval := dict_get data "poll_interval" (JFloat 1);
        l_recurse := dict_get data "recurse" (JBool true);
        l_oneshot := dict_get data "oneshot" (JBool false);
        l_initial_run := dict_get data "initial_run" (JBool false);
        l_show_events := dict_get data "show_events" (JBool false);
        l_log_file := dict_get data "log_file" JNull;
      |}
  | _ => None
  end.

(** The attributes of a typed record as Python values. *)
Definition attributes (c : WatcherConfig) : LoadedConfig := {|
  l_watch_dirs := json_strings (watch_dirs c);
  l_watch_patterns := json_strings (watch_patterns c);
  l_exclude_patterns := json_strings (exclude_patterns c);
  l_command := JString (command c);
  l_on_create := JString (on_create c);
  l_on_modify := JString (on_modify c);
  l_on_delete := JString (on_delete c);
  l_on_move := JString (on_move c);
  l_debounce_ms := JInt (debounce_ms c);
  l_poll_interval := JFloat (poll_interval c);
  l_recurse := JBool (recurse c);
  l_oneshot := JBool (oneshot c);
  l_initial_run := JBool (initial_run c);
  l_show_events := JBool (show_events c);
  l_log_file := json_optional (log_file c);
|}.

(** ** Command line: [main] *)

(** The namespace [parser.parse_args()] returns: [--dir] appends, the
    string options are [None] when absent, [--debounce] and [--poll]
    default to 300 and 1.0, the flags to [False]. *)
Record Args := mkArgs {
  arg_dir : option (list string);
  arg_patterns : option string;
  arg_exclude : option string;
  arg_command : option string;
  arg_on_create : option string;
  arg_on_modify : option string;
  arg_on_delete : option string;
  arg_on_move : option string;
  arg_debounce : Z;
  arg_poll : Q;
  arg_no_recurse : bool;
  arg_oneshot : bool;
  arg_initial_run : bool;
  arg_show_events : bool;
  arg_log_file : option string;
  arg_save_config : option string;
  arg_load_config : option string;
}.

(** The namespace of a command line without options. *)
Definition Args_default : Args :=
  mkArgs None None None None None None None None 300 1
         false false false false None None None.

(** [if args.x:] for an optional string, and the value the attribute
    gets: the option when it is given and non-empty, else what it was. *)
Definition truthy (o : option string) : bool :=
  match o with Some s => nonempty s | None => false end.

Definition or_keep (o : option string) (old : string) : string :=
  match o with Some s => if nonempty s then s else old | None => old end.

(** [s.strip()], for the whitespace of ASCII: tab to carriage return,
    file separator to unit separator, and space. *)
Definition is_space (a : ascii) : bool :=
  let n := nat_of_ascii a in
  ((9 <=? n) && (n <=? 13) || (28 <=? n) && (n <=? 32))%nat.

Fixpoint lstrip (s : string) : string :=
  match s with
  | String a s' => if is_space a then lstrip s' else s
  | EmptyString => EmptyString
  end.

Definition strip (s : string) : string :=
  String.rev (lstrip (String.rev (lstrip s))).

(** [[p.strip() for p in s.split(',')]] *)
Definition split_patterns (s : string) : list string :=
  strip <$> split_on "," s.

(** Lines 442-460: a fresh record with the command line's settings. *)
Definition apply_settings (args : Args) : WatcherConfig :=
  let c := WatcherConfig_init in
  mkWatcherConfig
    (match arg_dir args with Some (d :: l) => d :: l | _ => watch_dirs c end)
    (match arg_patterns args with
     | Some s => if nonempty s then split_patterns s else watch_patterns c
     | None => watch_patterns c
     end)
    (match arg_exclude args with
     | Some s => if nonempty s then split_patterns s else exclude_patterns c
     | None => exclude_patterns c
     end)
    (or_keep (arg_command args) (command c))
    (or_keep (arg_on_create args) (on_create c))
    (or_keep (arg_on_modify args) (on_modify c))
    (or_keep (arg_on_delete args) (on_delete c))
    (or_keep (arg_on_move args) (on_move c))
    (debounce_ms c) (poll_interval c) (recurse c) (oneshot c)
    (initial_run c) (show_events c) (log_file c).

(** Lines 462-476: the options, applied to either record. *)
Definition apply_options (args : Args) (c : WatcherConfig) : WatcherConfig :=
  mkWatcherConfig
    (watch_dirs c) (watch_patterns c) (exclude_patterns c)
    (command c) (on_create c) (on_modify c) (on_delete c) (on_move c)
    (if (arg_debounce args =? 0)%Z then debounce_ms c else arg_debounce args)
    (if Qeq_bool (arg_poll args) 0 then poll_interval c else arg_poll args)
    (if arg_no_recurse args then false else recurse c)
    (if arg_oneshot args then true else oneshot c)
    (if arg_initial_run args then true else initial_run c)
    (if arg_show_events args then true else show_events c)
    (match arg_log_file args with
     | Some f => if nonempty f then Some f else log_file c
     | None => log_file c
     end).

(** The typed record of a loaded object. A value of another type than
    its field's is outside the model. *)
Definition typed_strings (v : json) : option (list string) :=
  match v with
  | JArray l => mapM (λ x, match x with JString s => Some s | _ => None end) l
  | _ => None
  end.
Definition typed_string (v : json) : option string :=
  match v with JString s => Some s | _ => None end.
Definition typed_bool (v : json) : option bool :=
  match v with JBool b => Some b | _ => None end.

Definition typed (l : LoadedConfig) : option WatcherConfig :=
  dirs ← typed_strings (l_watch_dirs l);
  patterns ← typed_strings (l_watch_patterns l);
  excludes ← typed_strings (l_exclude_patterns l);
  cmd ← typed_string (l_command l);
  created ← typed_string (l_on_create l);
  modified ← typed_string (l_on_modify l);
  deleted ← typed_string (l_on_delete l);
  moved ← typed_string (l_on_move l);
  debounce ← match l_debounce_ms l with JInt n => Some n | _ => None end;
  poll ← match l_poll_interval l with
         | JFloat x => Some x | JInt n => Some (inject_Z n) | _ => None end;
  rec ← typed_bool (l_recurse l);
  one ← typed_bool (l_oneshot l);
  initial ← typed_bool (l_initial_run l);
  shown ← typed_bool (l_show_events l);
  logf ← match l_log_file l with
         | JNull => Some None | JString s => Some (Some s) | _ => None end;
  Some (mkWatcherConfig dirs patterns excludes cmd created modified deleted moved
          debounce poll rec one initial shown logf).

(** What a run of [main] comes to: the configuration was saved and
    [main] returned [code]; the watcher ran; [load_config] raised (no
    such file, or no JSON object in it); or the loaded values are outside
    the model. *)
Inductive MainResult :=
| Saved (files : gmap string json) (code : Z)
| Ran (result : option Z * State)
| Raised
| Untyped.

(** Lines 438-476: the configuration [main] works with. *)
Definition main_config (args : Args) (files : gmap string json)
    : option (option WatcherConfig) :=
  match arg_load_config args with
  | Some f =>
      if nonempty f
      then match load_config f files with
           | Some l => Some (apply_options args <$> typed l)
           | None => None
           end
      else Some (Some (apply_options args (apply_settings args)))
  | None => Some (Some (apply_options args (apply_settings args)))
  end.

(** [main], the watch loop bounded by [fuel]. *)
Definition main (w : World) (args : Args) (files : gmap string json) (fuel : nat)
    : MainResult :=
  match main_config args files with
  | None => Raised
  | Some None => Untyped
  | Some (Some config) =>
      match arg_save_config args with
      | Some f =>
          if nonempty f then Saved (save_config config f files) 0
          else Ran (start w config fuel State_init)
      | None => Ran (start w config fuel State_init)
      end
  end.

(** ** Observations on traces and events *)

(** The event type that [handle_change] detects (the conditions of its
    [if]/[elif]/[else], lines 205-219). *)
Definition event_type (old_info new_info : FileInfo) : string :=
  if fi_exists old_info && negb (fi_exists new_info) then "delete"
  else if negb (fi_exists old_info) && fi_exists new_info then "create"
  else "modify".

(** The per-event command of an event type, and the command that
    [handle_change] resolves: the per-event one, else the generic one. *)
Definition event_command (config : WatcherConfig) (event_type : string) : string :=
  if String.eqb event_type "delete" then on_delete config
  else if String.eqb event_type "create" then on_create config
  else on_modify config.

Definition resolved_command (config : WatcherConfig) (event_type : string) : string :=
  if nonempty (event_command config event_type)
  then event_command config event_type
  else command config.

Definition event_message (event_type path : string) : string :=
  if String.eqb event_type "delete" then "🗑️ File deleted: " +:+ path
  else if String.eqb event_type "create" then "📄 File created: " +:+ path
  else "📝 File modified: " +:+ path.


(** The calls of [handle_change] for [path] recorded in a trace. *)
Definition changes_for (path : string) (tr : list Effect) : list (FileInfo * FileInfo) :=
  omap (λ e, match e with
             | Change p o n => if String.eqb p path then Some (o, n) else None
             | _ => None
             end) tr.

Definition is_change (e : Effect) : bool :=
  match e with Change _ _ _ => true | _ => false end.

(** The commands handed to [subprocess.run], in order. *)
Definition commands (tr : list Effect) : list string :=
  omap (λ e, match e with Exec c => Some c | _ => None end) tr.

(** A configuration with another [on_move] command. *)
Definition with_on_move (on_move' : string) (c : WatcherConfig) : WatcherConfig :=
  mkWatcherConfig (watch_dirs c) (watch_patterns c) (exclude_patterns c)
    (command c) (on_create c) (on_modify c) (on_delete c) on_move'
    (debounce_ms c) (poll_interval c) (recurse c) (oneshot c)
    (initial_run c) (show_events c) (log_file c).


(** The snapshot of a file whose [os.stat] fails. *)
Definition absent (path : string) : FileInfo := mkFileInfo path 0 0 false.

(** The effects a computation adds to the trace, and the calls of
    [handle_change] for [path] that one comparison of the stored states
    with [current_states] makes: the events of one classification
    cycle. *)
Definition produced {A} (m : M A) (st : State) : list Effect :=
  drop (length (trace st)) (trace (exec m st)).

Definition cycle_events (w : World) (config : WatcherConfig)
    (current_states : gmap string FileInfo) (st : State) (path : string)
    : list (FileInfo * FileInfo) :=
  changes_for path (produced (detect_changes w config current_states) st).

(** The paths that the scan of [directory] stats, and "[os.stat] fails
    on [q] whenever it is called between two states". *)
Definition listed_paths (w : World) (config : WatcherConfig) (n : nat)
    (directory : string) : list string :=
  '(root, files) ← visited w config n directory; os_path_join root <$> files.

Definition stat_fails (w : World) (q : string) (st st' : State) : Prop :=
  ∀ n, (tick st ≤ n < tick st')%nat → os_stat w n q = None.

(** The clock reading at [st] is at least one debounce window after the
    last trigger: the test of [_should_run]. *)
Definition elapsed_ok (w : World) (config : WatcherConfig) (st : State) : Prop :=
  (inject_Z (debounce_ms config)
     <= (time_time w (tick st) - last_change st) * 1000)%Q.

(** The state in which the poll cycle of an iteration starts. *)
Definition after_sleep (config : WatcherConfig) (st : State) : State :=
  set_trace (trace st ++ [Sleep (poll_interval config)]) (set_tick (S (tick st)) st).

(** The roots that pass [os.path.exists], the first one being checked at
    tick [n]. *)
Fixpoint valid_roots (w : World) (n : nat) (dirs : list string) : list string :=
  match dirs with
  | [] => []
  | d :: dirs' =>
      (if os_path_exists w n (os_path_abspath w d) then [os_path_abspath w d] else [])
      ++ valid_roots w (S n) dirs'
  end.

Definition any_effect (e : Effect) : Prop := True.

(** ** Relations between the state before and after a computation *)

(** A computation respects a relation on states when every run of it
    relates the state before to the state after. *)
Definition respects (R : relation State) {A} (m : M A) : Prop :=
  ∀ st, R st (exec m st).

Definition keeps {B} (f : State → B) : relation State := λ st st', f st' = f st.
Definition tick_le : relation State := λ st st', (tick st ≤ tick st')%nat.
Definition grows (P : Effect → Prop) : relation State :=
  λ st st', ∃ tr, trace st' = trace st ++ tr ∧ Forall P tr.
Definition no_change (e : Effect) : Prop := is_change e = false.

(** The trace grows by effects among which the commands run are [cs]. *)
Definition runs (cs : list string) : relation State :=
  λ st st', ∃ tr, trace st' = trace st ++ tr ∧ commands tr = cs.

(** In oneshot mode: the stop flag stays set, and it is set after any
    step that runs a command. *)
Definition oneshot_step : relation State :=
  λ st st', (stop_flag st = true → stop_flag st' = true)
            ∧ ∃ tr, trace st' = trace st ++ tr
                    ∧ (stop_flag st' = true ∨ commands tr = []).

(** The stored states are kept and the trace grows by effects among
    which the calls of [handle_change] for [p] are [cs]. *)
Definition changes_by (p : string) (cs : list (FileInfo * FileInfo)) : relation State :=
  λ st st', file_states st' = file_states st
            ∧ ∃ tr, trace st' = trace st ++ tr ∧ changes_for p tr = cs.

(** ** Further observations *)

(** The intervals that [time.sleep] accepts: not negative, and in whole
    seconds below the 2^63 nanoseconds it can count. *)
Definition sleepable (secs : Q) : Prop :=
  (0 <= secs)%Q ∧ (secs <= 9223372036)%Q.

(** [a] occurs in [s]. *)
Definition occurs_in (a s : string) : Prop := ∃ l r, s = l +:+ a +:+ r.

(** The snapshot [FileInfo(path)] builds from the answer of [os.stat]. *)
Definition snapshot_of (path : string) (r : option (Q * Z)) : FileInfo :=
  match r with
  | Some (m, s) => mkFileInfo path m s true
  | None => absent path
  end.

(** [os.stat] answers [r] on [q] whenever it is called between two
    states. *)
Definition stat_is (w : World) (q : string) (r : option (Q * Z)) (st st' : State) : Prop :=
  ∀ n, (tick st ≤ n < tick st')%nat → os_stat w n q = r.

(** Every snapshot of a snapshot set is stored under its own path. *)
Definition keyed (m : gmap string FileInfo) : Prop :=
  ∀ q info, m !! q = Some info → fi_path info = q.

(** The log history is within its bound after a step if it was before. *)
Definition history_bounded : relation State :=
  λ st st', (length (log_history st) ≤ 1000 → length (log_history st') ≤ 1000)%nat.

(** The debounce test fails at every clock reading between two states:
    the window since the last trigger of the first state is still open. *)
Definition window_open (w : World) (config : WatcherConfig) (st st' : State) : Prop :=
  ∀ n, (tick st ≤ n < tick st')%nat →
    ((time_time w n - last_change st) * 1000 < inject_Z (debounce_ms config))%Q.

(** While the window is open a step runs no command and keeps the last
    trigger time. *)
Definition stays_quiet (w : World) (config : WatcherConfig) : relation State :=
  λ st st', (tick st ≤ tick st')%nat
            ∧ (window_open w config st st' →
               last_change st' = last_change st ∧ runs [] st st').

(** The command is not empty and is one of the four the program
    dispatches. *)
Definition configured (config : WatcherConfig) (c : string) : Prop :=
  c ≠ "" ∧ c ∈ [on_delete config; on_create config; on_modify config; command config].

(** An effect that, if it starts a child process, runs a command in [P]. *)
Definition runs_only (P : string → Prop) (e : Effect) : Prop :=
  ∀ c, e = Exec c → P c.

(** The namespace of [--load-config f] alone. *)
Definition Args_load (f : string) : Args :=
  mkArgs None None None None None None None None 300 1
         false false false false None None (Some f).

(** A configuration with other timing. *)
Definition with_timing (debounce : Z) (poll : Q) (c : WatcherConfig) : WatcherConfig :=
  mkWatcherConfig (watch_dirs c) (watch_patterns c) (exclude_patterns c)
    (command c) (on_create c) (on_modify c) (on_delete c) (on_move c)
    debounce poll (recurse c) (oneshot c)
    (initial_run c) (show_events c) (log_file c).

(** The fifteen keys of a configuration file. *)
Definition config_keys : list string :=
  ["watch_dirs"; "watch_patterns"; "exclude_patterns"; "command"; "on_create";
   "on_modify"; "on_delete"; "on_move"; "debounce_ms"; "poll_interval";
   "recurse"; "oneshot"; "initial_run"; "show_events"; "log_file"].

(** ** Sample worlds and configurations *)

(** A world with one watched directory [/w]: [listing n] are the file
    names [os.walk] finds at tick [n], [stat n] the metadata of the
    files [os.stat] succeeds on. The clock starts at [t0] and advances
    one second per tick, every command exits with [outcome], and SIGINT
    arrives at the first sleep from tick [stop_at] on. *)
Definition sample_world (listing : nat → list string)
    (stat : nat → list (string * (Q * Z))) (t0 : Q) (outcome : Outcome)
    (stop_at : nat) : World := {|
  os_getcwd := "/w";
  os_path_abspath := λ p, p;
  os_path_exists := λ _ p, String.eqb p "/w";
  os_walk := λ n d, if String.eqb d "/w" then [("/w", listing n)] else [];
  os_stat := λ n p, snd <$> List.find (λ kv, String.eqb kv.1 p) (stat n);
  time_time := λ n, (t0 + inject_Z (Z.of_nat n))%Q;
  strftime_now := λ _, "12:00:00";
  subprocess_run := λ _ _, outcome;
  open_append := λ _ _, None;
  set_order := λ _, [];
  sigint := λ n, (stop_at <=? n)%nat;
|}.

(** [/w] holds [a.py] throughout. *)
Definition world_a_py : World :=
  sample_world (λ _, ["a.py"]) (λ _, [("/w/a.py", (100%Q, 10%Z))])
               1800000000 (Completed 0 "" "") 20.

Definition config_py_tests : WatcherConfig :=
  mkWatcherConfig ["/w"] [".py"] ["test"] "pytest" "" "" "" "" 300 1
                  true false false true None.

(** Per-event commands, a generic command, [.py] files only. *)
Definition config_hooks : WatcherConfig :=
  mkWatcherConfig ["/w"] [".py"] [] "pytest" "echo created" "echo modified"
                  "echo deleted" "echo moved" 300 1 true false false true None.

(** No patterns, no commands, events shown. *)
Definition config_show : WatcherConfig :=
  mkWatcherConfig ["/w"] [] [] "" "" "" "" "" 300 1 true false false true None.

Definition a_py (mtime : Q) (size : Z) : FileInfo := mkFileInfo "/w/a.py" mtime size true.
Definition old_py : FileInfo := mkFileInfo "/w/old.py" 100 10 true.
Definition new_py : FileInfo := mkFileInfo "/w/new.py" 100 10 true.

(** [/w] holds [new.py], to which [old.py] has been renamed. *)
Definition world_moved : World :=
  sample_world (λ _, ["new.py"]) (λ _, [("/w/new.py", (100%Q, 10%Z))])
               1800000000 (Completed 0 "" "") 20.

(** A fresh watcher whose stored states are [P]. *)
Definition with_states (P : gmap string FileInfo) : State :=
  set_file_states P State_init.

(** [/w] lists [link], on which [os.stat] fails, and [a.py]. *)
Definition world_dangling : World :=
  sample_world (λ _, ["link"; "a.py"]) (λ _, [("/w/a.py", (100%Q, 10%Z))])
               1800000000 (Completed 0 "" "") 20.

(** [/w] lists [link.py], on which [os.stat] fails, during the baseline
    scan; the link is gone at the next scan. *)
Definition world_vanishing : World :=
  sample_world (λ n, if (n <? 3)%nat then ["link.py"] else []) (λ _, [])
               1800000000 (Completed 0 "" "") 20.

(** [config_hooks] with a debounce window of [ms] milliseconds. *)
Definition config_debounce (ms : Z) : WatcherConfig :=
  mkWatcherConfig ["/w"] [".py"] [] "pytest" "echo created" "echo modified"
                  "echo deleted" "echo moved" ms 1 true false false true None.

(** Oneshot mode, a generic command only. *)
Definition config_oneshot : WatcherConfig :=
  mkWatcherConfig ["/w"] [".py"] [] "pytest" "" "" "" "" 300 1
                  true true false false None.

(** [/w] holds [a.py]; every command runs into the timeout. *)
Definition world_timeout : World :=
  sample_world (λ _, ["a.py"]) (λ _, [("/w/a.py", (100%Q, 10%Z))])
               1800000000 TimeoutExpired 20.

(** [/w] is empty at the baseline scan; [a.py] is there from tick 3 on.
    Every command fails with exit code 1, and no interrupt arrives in
    the first thousand ticks. *)
Definition world_appearing : World :=
  sample_world (λ n, if (n <? 3)%nat then [] else ["a.py"])
               (λ n, if (n <? 3)%nat then [] else [("/w/a.py", (100%Q, 10%Z))])
               1800000000 (Completed 1 "" "boom") 1000.

(** Two watch roots that do not exist. *)
Definition config_nowhere : WatcherConfig :=
  mkWatcherConfig ["/nowhere"; "/missing"] [] [] "pytest" "" "" "" "" 300 1
                  true false false false None.

(** [/w] holds [a.py], modified since the baseline; the clock stands
    still and no interrupt ever arrives. *)
Definition world_steady : World := {|
  os_getcwd := "/w";
  os_path_abspath := λ p, p;
  os_path_exists := λ _ p, String.eqb p "/w";
  os_walk := λ _ d, if String.eqb d "/w" then [("/w", ["a.py"])] else [];
  os_stat := λ _ p, if String.eqb p "/w/a.py" then Some (150%Q, 10%Z) else None;
  time_time := λ _, 1800000000%Q;
  strftime_now := λ _, "12:00:00";
  subprocess_run := λ _ _, Completed 0 "" "";
  open_append := λ _ _, None;
  set_order := λ _, [];
  sigint := λ _, false;
|}.

(** An exclude list, and an include list, with an empty pattern. *)
Definition config_blank_exclude : WatcherConfig :=
  mkWatcherConfig ["/w"] [".py"] ["tmp"; ""] "pytest" "" "" "" "" 300 1
                  true false false true None.

Definition config_blank_include : WatcherConfig :=
  mkWatcherConfig ["/w"] [".py"; ""] ["tmp"] "pytest" "" "" "" "" 300 1
                  true false false true None.

(** No recursion. *)
Definition config_flat : WatcherConfig :=
  mkWatcherConfig ["/w"] [] [] "pytest" "" "" "" "" 300 1
                  false false false false None.

(** Initial run in oneshot mode. *)
Definition config_initial : WatcherConfig :=
  mkWatcherConfig ["/w"] [] [] "pytest" "" "" "" "" 300 1
                  true true true false None.

(** [--patterns ".py" --command pytest --debounce 0 --save-config w.json] *)
Definition args_save : Args :=
  mkArgs None (Some ".py") None (Some "pytest") None None None None 0 2
         false false false false None (Some "w.json") None.

(** [--dir /src --command make --load-config w.json] *)
Definition args_load_more : Args :=
  mkArgs (Some ["/src"]) None None (Some "make") None None None None 300 1
         false false false false None None (Some "w.json").

(** * Properties *)

(** ** Reasoning about the state monad *)

Lemma exec_bind {A B} (m : M A) (f : A → M B) st :
  exec (m ≫= f) st = exec (f (eval m st)) (exec m st).
Proof. unfold exec, eval, mbind, M_bind. by destruct (m st). Qed.

Lemma eval_bind {A B} (m : M A) (f : A → M B) st :
  eval (m ≫= f) st = eval (f (eval m st)) (exec m st).
Proof. unfold exec, eval, mbind, M_bind. by destruct (m st). Qed.

Section Respects.
Context (R : relation State) `{!PreOrder R}.

Lemma respects_ret {A} (a : A) : respects R (mret a).
Proof. intros st. reflexivity. Qed.

Lemma respects_get : respects R get.
Proof. intros st. reflexivity. Qed.

Lemma respects_bind {A B} (m : M A) (f : A → M B) :
  respects R m → (∀ a, respects R (f a)) → respects R (m ≫= f).
Proof.
  intros Hm Hf st. rewrite exec_bind.
  etrans; [apply Hm | apply Hf].
Qed.

Lemma respects_when b (m : M unit) : respects R m → respects R (when b m).
Proof. intros Hm. destruct b; [done | apply respects_ret]. Qed.

Lemma respects_for_each {A} (l : list A) (body : A → M unit) :
  (∀ x, respects R (body x)) → respects R (for_each l body).
Proof.
  intros Hb. induction l as [|x l IH]; simpl.
  - apply respects_ret.
  - apply respects_bind; [apply Hb | done].
Qed.

Lemma respects_for_each_elem {A} (l : list A) (body : A → M unit) :
  (∀ x, x ∈ l → respects R (body x)) → respects R (for_each l body).
Proof.
  induction l as [|x l IH]; intros Hb; simpl.
  - apply respects_ret.
  - apply respects_bind.
    + apply Hb, list_elem_of_here.
    + intros _. apply IH. intros y Hy. by apply Hb, list_elem_of_further.
Qed.

Lemma respects_fold_each {A B} (l : list A) (body : B → A → M B) acc :
  (∀ acc x, respects R (body acc x)) → respects R (fold_each l body acc).
Proof.
  intros Hb. revert acc. induction l as [|x l IH]; intros acc; simpl.
  - apply respects_ret.
  - apply respects_bind; [apply Hb | done].
Qed.
End Respects.

#[export] Instance keeps_preorder {B} (f : State → B) : PreOrder (keeps f).
Proof. split; [by intros x | intros x y z; unfold keeps; congruence]. Qed.
#[export] Instance tick_le_preorder : PreOrder tick_le.
Proof. split; unfold tick_le; [intros ?; lia | intros ???; lia]. Qed.
#[export] Instance grows_preorder P : PreOrder (grows P).
Proof.
  split.
  - intros st. exists []. by rewrite app_nil_r.
  - intros x y z (tr1 & E1 & F1) (tr2 & E2 & F2). exists (tr1 ++ tr2).
    rewrite E2, E1, <- app_assoc. split; [done | by apply Forall_app].
Qed.

(** The lemmas about single methods are collected in the database
    [fw]. [respects_prim] settles a single update of the state,
    [respects_tac] walks through the structure of a method. *)
Create HintDb fw discriminated.

Ltac respects_prim :=
  let st := fresh "st" in
  intros st; destruct st;
  unfold exec, modify, emit, next_tick, get, keeps, tick_le, grows,
    runs, oneshot_step;
  simpl;
  first
    [ done
    | lia
    | (exists []; split; [by rewrite app_nil_r | first [done | by constructor]])
    | (eexists [_]; split; [reflexivity | first [done | by repeat constructor]])
    | (split; [done|]; exists []; split; [by rewrite app_nil_r | by right])
    | (split; [done|]; eexists [_]; split; [reflexivity | by right]) ].

Ltac respects_step :=
  first
    [ assumption
    | solve [eauto 2 with fw]
    | apply respects_ret; tc_solve
    | apply respects_get; tc_solve
    | (apply respects_bind; [tc_solve | | intros ?])
    | (apply respects_when; [tc_solve |])
    | (apply respects_for_each; [tc_solve | intros ?])
    | (apply respects_fold_each; [tc_solve | intros ? ?])
    | progress case_match
    | solve [respects_prim] ].

Ltac respects_tac := repeat respects_step.

(** The methods of [ChangeHandler] keep the stored states and make no
    call of [handle_change] themselves. *)
Section HandlerFrames.
Context (w : World) (config : WatcherConfig).

Lemma log_keeps_states msg : respects (keeps file_states) (log w config msg).
Proof. unfold log, _log_to_file. respects_tac. Qed.
Lemma log_grows msg : respects (grows no_change) (log w config msg).
Proof. unfold log, _log_to_file. respects_tac. Qed.
Hint Resolve log_keeps_states log_grows : fw.

Lemma should_run_keeps_states : respects (keeps file_states) (_should_run w config).
Proof. unfold _should_run. respects_tac. Qed.
Lemma should_run_grows : respects (grows no_change) (_should_run w config).
Proof. unfold _should_run. respects_tac. Qed.
Hint Resolve should_run_keeps_states should_run_grows : fw.

Lemma run_command_keeps_states c e p :
  respects (keeps file_states) (_run_command w config c e p).
Proof. unfold _run_command. respects_tac. Qed.
Lemma run_command_grows c e p :
  respects (grows no_change) (_run_command w config c e p).
Proof. unfold _run_command. respects_tac. Qed.
Hint Resolve run_command_keeps_states run_command_grows : fw.

Lemma handle_change_keeps_states p o n :
  respects (keeps file_states) (handle_change w config p o n).
Proof. unfold handle_change. respects_tac. Qed.
Lemma handle_change_grows p o n :
  respects (grows no_change) (handle_change w config p o n).
Proof. unfold handle_change. respects_tac. Qed.
End HandlerFrames.

#[export] Hint Resolve log_keeps_states log_grows should_run_keeps_states
  should_run_grows run_command_keeps_states run_command_grows
  handle_change_keeps_states handle_change_grows : fw.

(** ** Change classification *)

Lemma changes_for_app p tr1 tr2 :
  changes_for p (tr1 ++ tr2) = changes_for p tr1 ++ changes_for p tr2.
Proof. apply omap_app. Qed.

Lemma changes_for_no_change p tr : Forall no_change tr → changes_for p tr = [].
Proof.
  induction 1 as [|e tr He _ IH]; [done|].
  destruct e; simpl; try done; discriminate He.
Qed.

Lemma changes_by_trans p cs1 cs2 st1 st2 st3 :
  changes_by p cs1 st1 st2 → changes_by p cs2 st2 st3 →
  changes_by p (cs1 ++ cs2) st1 st3.
Proof.
  intros (F1 & tr1 & E1 & C1) (F2 & tr2 & E2 & C2). split; [congruence|].
  exists (tr1 ++ tr2). rewrite E2, E1, <- app_assoc, changes_for_app.
  by subst.
Qed.

#[export] Instance changes_by_nil_preorder p : PreOrder (changes_by p []).
Proof.
  split.
  - intros st. split; [done|]. exists []. by rewrite app_nil_r.
  - intros x y z H1 H2. apply (changes_by_trans p [] [] x y z H1 H2).
Qed.

Lemma quiet_changes_by {A} (m : M A) p :
  respects (keeps file_states) m → respects (grows no_change) m →
  respects (changes_by p []) m.
Proof.
  intros Hk Hg st. split; [apply Hk|].
  destruct (Hg st) as (tr & E & F). exists tr. split; [done|].
  by apply changes_for_no_change.
Qed.

Lemma produced_spec {A} (m : M A) st tr :
  trace (exec m st) = trace st ++ tr → produced m st = tr.
Proof. intros E. unfold produced. rewrite E. apply drop_app_length. Qed.

Section Classification.
Context (w : World) (config : WatcherConfig).
Implicit Types (current_states : gmap string FileInfo).

Lemma FileInfo_init_run path st :
  FileInfo_init w path st =
    (match os_stat w (tick st) path with
     | Some (m, s) => mkFileInfo path m s true
     | None => absent path
     end, set_tick (S (tick st)) st).
Proof. reflexivity. Qed.

Lemma FileInfo_init_changes p path :
  respects (changes_by p []) (FileInfo_init w path).
Proof.
  intros st. unfold exec. rewrite FileInfo_init_run. simpl.
  split; [done|]. exists []. by rewrite app_nil_r.
Qed.

Lemma handle_change_changes p path o n :
  respects (changes_by p []) (handle_change w config path o n).
Proof. apply quiet_changes_by; eauto with fw. Qed.

Lemma call_handle_change_self p o n st :
  changes_by p [(o, n)] st (exec (call_handle_change w config p o n) st).
Proof.
  unfold call_handle_change. rewrite exec_bind.
  apply (changes_by_trans p [(o, n)] [] st (exec (emit (Change p o n)) st)).
  - split; [done|]. exists [Change p o n]. split; [done|].
    simpl. by rewrite String.eqb_refl.
  - apply handle_change_changes.
Qed.

Lemma call_handle_change_other p q o n :
  q ≠ p → respects (changes_by p []) (call_handle_change w config q o n).
Proof.
  intros Hne st. unfold call_handle_change. rewrite exec_bind.
  etrans; [|apply handle_change_changes].
  split; [done|]. exists [Change q o n]. split; [done|].
  simpl. by apply String.eqb_neq in Hne as ->.
Qed.

Lemma compare_path_other current_states p q :
  q ≠ p → respects (changes_by p []) (compare_path w config current_states q).
Proof.
  intros Hne. unfold compare_path.
  pose proof (call_handle_change_other p q) as Hc.
  pose proof (FileInfo_init_changes p) as Hi.
  respects_tac; try (apply Hc; done); try apply Hi.
Qed.
End Classification.

Lemma reorder_NoDup order elems : NoDup elems → NoDup (reorder order elems).
Proof.
  intros Hnd. unfold reorder. apply NoDup_app. split; [|split].
  - apply NoDup_filter, NoDup_remove_dups.
  - intros x Hx Hy.
    apply list_elem_of_filter in Hx as [_ Hx]. rewrite elem_of_remove_dups in Hx.
    apply list_elem_of_filter in Hy as [Hy _]. exact (Hy Hx).
  - by apply NoDup_filter.
Qed.

Lemma reorder_elem_of order elems x : x ∈ reorder order elems ↔ x ∈ elems.
Proof.
  unfold reorder. rewrite elem_of_app, !list_elem_of_filter, elem_of_remove_dups.
  destruct (decide (x ∈ order)); tauto.
Qed.

Section Cycle.
Context (w : World) (config : WatcherConfig).
Implicit Types (current_states : gmap string FileInfo).

(** Where the handling of one path is characterised by [Φ] in every
    state with the stored states [P], so is a loop over distinct paths
    that include it. *)
Lemma for_each_compare current_states p P (Φ : list (FileInfo * FileInfo) → Prop) :
  (∀ st, file_states st = P →
     ∃ cs, Φ cs ∧ changes_by p cs st (exec (compare_path w config current_states p) st)) →
  ∀ l, NoDup l → p ∈ l → ∀ st, file_states st = P →
    ∃ cs, Φ cs ∧
      changes_by p cs st (exec (for_each l (compare_path w config current_states)) st).
Proof.
  intros Hself l. induction l as [|q l IH]; intros Hnd Hin st HP.
  - by apply elem_of_nil in Hin.
  - apply NoDup_cons in Hnd as [Hq Hnd]. simpl. rewrite exec_bind.
    destruct (decide (q = p)) as [->|Hne].
    + destruct (Hself st HP) as (cs & HΦ & Hcs). exists cs. split; [done|].
      rewrite <- (app_nil_r cs). eapply changes_by_trans; [done|].
      apply (respects_for_each_elem (changes_by p [])).
      intros q Hql. apply compare_path_other. by intros ->.
    + apply elem_of_cons in Hin as [->|Hin]; [done|].
      pose proof (compare_path_other w config current_states p q Hne st) as H1.
      destruct (IH Hnd Hin (exec (compare_path w config current_states q) st))
        as (cs & HΦ & Hcs).
      { destruct H1 as [-> _]. done. }
      exists cs. split; [done|].
      change cs with ([] ++ cs). by eapply changes_by_trans.
Qed.

Lemma iter_set_run (s : gset string) st :
  iter_set w s st = (reorder (set_order w (tick st)) (elements s), set_tick (S (tick st)) st).
Proof. reflexivity. Qed.

Lemma detect_changes_exec current_states st :
  exec (detect_changes w config current_states) st =
    set_file_states current_states
      (exec (for_each
               (reorder (set_order w (tick st))
                  (elements (dom (file_states st) ∪ dom current_states)))
               (compare_path w config current_states))
            (set_tick (S (tick st)) st)).
Proof.
  unfold detect_changes, exec, mbind, M_bind, get, iter_set, next_tick,
    mret, M_ret, modify. simpl.
  by destruct (for_each _ _ _).
Qed.

(** The calls of [handle_change] for a path that one comparison of the
    stored states with [current_states] makes are those of the single
    handling of that path. *)
Lemma detect_changes_events current_states p (Φ : list (FileInfo * FileInfo) → Prop) st :
  p ∈ dom (file_states st) ∪ dom current_states →
  (∀ st', file_states st' = file_states st →
     ∃ cs, Φ cs ∧ changes_by p cs st' (exec (compare_path w config current_states p) st')) →
  Φ (cycle_events w config current_states st p).
Proof.
  intros Hin Hself. unfold cycle_events.
  set (l := reorder (set_order w (tick st))
              (elements (dom (file_states st) ∪ dom current_states))).
  destruct (for_each_compare current_states p (file_states st) Φ Hself l)
    with (st := set_tick (S (tick st)) st) as (cs & HΦ & _ & tr & E & Hcs).
  { apply reorder_NoDup, NoDup_elements. }
  { apply reorder_elem_of, elem_of_elements, Hin. }
  { done. }
  rewrite (produced_spec _ _ tr); [by rewrite Hcs|].
  rewrite detect_changes_exec. exact E.
Qed.
End Cycle.


(** [handle_change] does what its event type says: on a path that
    passes the filter it logs the message of the event type when events
    are shown, and runs the resolved command of the event type. *)
Lemma handle_change_by_type w config path o n st :
  handle_change w config path o n st =
    (if negb (should_process config path) then mret tt
     else
       when (show_events config) (log w config (event_message (event_type o n) path));;
       _run_command w config (resolved_command config (event_type o n))
                    (event_type o n) path) st.
Proof.
  unfold handle_change, event_type, resolved_command, event_command.
  destruct (negb (should_process config path)); [done|].
  destruct (fi_exists o), (fi_exists n); simpl;
    unfold mbind, M_bind, mret, M_ret;
    destruct (when _ _ st) as [[] st']; simpl.
  all: match goal with
       | |- context [nonempty ?c] =>
           destruct (nonempty c) eqn:E1; [done|];
           destruct (nonempty (command config)) eqn:E2; [done|]
       end.
  all: unfold nonempty in E2; apply negb_false_iff, String.eqb_eq in E2;
       by rewrite E2.
Qed.


Section Classify.
Context (w : World) (config : WatcherConfig).
Implicit Types (current_states : gmap string FileInfo).



Lemma compare_path_created current_states p new_info st :
  file_states st !! p = None →
  current_states !! p = Some new_info →
  ∃ old_info, changes_by p [(old_info, new_info)]
      st (exec (compare_path w config current_states p) st)
    ∧ ∃ n, (tick st ≤ n)%nat ∧
        old_info = match os_stat w n p with
                   | Some (m, s) => mkFileInfo p m s true
                   | None => absent p
                   end.
Proof.
  intros Ho Hn. unfold compare_path. rewrite exec_bind.
  unfold eval, get, exec at 2. simpl. rewrite Ho, Hn.
  rewrite exec_bind. eexists. split.
  - change [(?o, new_info)] with ([] ++ [(o, new_info)]).
    eapply changes_by_trans; [apply FileInfo_init_changes|].
    apply call_handle_change_self.
  - exists (tick st). split; [done|]. unfold eval. by rewrite FileInfo_init_run.
Qed.
End Classify.



(** A snapshot with [exists = False] does get stored: the baseline scan
    of a directory that lists a dangling link stores one. *)
Lemma absent_snapshot_is_stored :
  file_states (exec (initial_scan world_dangling config_show ["/w"]) State_init)
    !! "/w/link" = Some (absent "/w/link").
Proof. reflexivity. Qed.

(** C8: a path present in the previous snapshot set and absent from
    the current one gets exactly one Deleted event whose synthesized new
    snapshot has [exists] false. The code does not do this for a path
    stored with [exists = False]. The baseline scan stores such a
    snapshot for [/w/link.py], on which [os.stat] fails; when the link
    has left the listing, the loop takes its "File deleted" branch and
    forces [exists] to false on the synthesized snapshot, but the one
    call of [handle_change] logs "File modified" and runs [on_modify],
    not [on_delete]. *)
Theorem vanished_path_handled_as_modify :
  let st := with_states {["/w/link.py" := absent "/w/link.py"]} in
  file_states (exec (initial_scan world_vanishing config_hooks ["/w"]) State_init)
    = file_states st
  ∧ cycle_events world_vanishing config_hooks ∅ st "/w/link.py"
    = [(absent "/w/link.py", absent "/w/link.py")]
  ∧ produced (detect_changes world_vanishing config_hooks ∅) st
    = [ Change "/w/link.py" (absent "/w/link.py") (absent "/w/link.py");
        Print "[12:00:00] 📝 File modified: /w/link.py";
        Print "[12:00:00] 🚀 Running: echo modified";
        Exec "echo modified";
        Print "[12:00:00] ✅ modify command succeeded" ]
  ∧ commands (produced (start world_vanishing config_hooks 1) State_init)
    = ["echo modified"].
Proof. vm_compute. done. Qed.

(** A path that is new in the current snapshot set and still there when
    the loop reaches it: [FileInfo(path)] stats the file afresh, so the
    "old" snapshot handed to [handle_change] exists and the event type is
    [modify]. *)
Lemma created_path_event_type w config current_states st path new_info :
  file_states st !! path = None →
  current_states !! path = Some new_info →
  fi_exists new_info = true →
  (∀ n, os_stat w n path ≠ None) →
  ∃ old_info,
    cycle_events w config current_states st path = [(old_info, new_info)]
    ∧ event_type old_info new_info = "modify".
Proof.
  intros Ho Hn En Hstat.
  apply (detect_changes_events w config current_states path
           (λ cs, ∃ old_info, cs = [(old_info, new_info)]
                    ∧ event_type old_info new_info = "modify")).
  - apply elem_of_union_r, elem_of_dom. by eexists.
  - intros st' E.
    destruct (compare_path_created w config current_states path new_info st')
      as (old_info & Hc & n & _ & Hold); [by rewrite E | done |].
    exists [(old_info, new_info)]. split; [|done].
    exists old_info. split; [done|]. subst old_info.
    specialize (Hstat n). destruct (os_stat w n path) as [[m sz]|]; [|done].
    unfold event_type. simpl. by rewrite En.
Qed.

(** C1: a path absent from the previous snapshot set and present in the
    current one gets exactly one Created event, and the on-create
    command is dispatched. The code does not do this. With empty stored
    states, [/w/a.py] in the current snapshot set and the file still
    there when the loop handles it, the one call of [handle_change] has
    event type [modify], the log says "File modified" and the command
    run is [on_modify], not [on_create]. *)
Theorem created_file_handled_as_modify :
  cycle_events world_a_py config_hooks {["/w/a.py" := a_py 100 10]} State_init "/w/a.py"
    = [(a_py 100 10, a_py 100 10)]
  ∧ event_type (a_py 100 10) (a_py 100 10) = "modify"
  ∧ produced (detect_changes world_a_py config_hooks {["/w/a.py" := a_py 100 10]})
      State_init
    = [ Change "/w/a.py" (a_py 100 10) (a_py 100 10);
        Print "[12:00:00] 📝 File modified: /w/a.py";
        Print "[12:00:00] 🚀 Running: echo modified";
        Exec "echo modified";
        Print "[12:00:00] ✅ modify command succeeded" ].
Proof. vm_compute. done. Qed.

(** X14. The configured [on_move] command is never read: a run of
    [start] is the same whatever [on_move] holds. *)
Lemma start_ignores_on_move w c on_move' fuel st :
  start w (with_on_move on_move' c) fuel st = start w c fuel st.
Proof. destruct c. reflexivity. Qed.

(** C9: no move event is synthesized, [on_move] is never run, and a
    moved file is seen as a Deleted event on the old path plus a Created
    event on the new path. The code does not do the last. With [old.py]
    stored and [new.py] in its place in the current snapshot set, the
    old path gets a [delete] event but the new path a [modify] event,
    and the commands run are [on_delete] and [on_modify]. *)
Theorem moved_file_seen_as_delete_and_modify :
  let st := with_states {["/w/old.py" := old_py]} in
  let current_states : gmap string FileInfo := {["/w/new.py" := new_py]} in
  cycle_events world_moved config_hooks current_states st "/w/old.py"
    = [(old_py, absent "/w/old.py")]
  ∧ event_type old_py (absent "/w/old.py") = "delete"
  ∧ cycle_events world_moved config_hooks current_states st "/w/new.py"
    = [(new_py, new_py)]
  ∧ event_type new_py new_py = "modify"
  ∧ commands (produced (detect_changes world_moved config_hooks current_states) st)
    = ["echo deleted"; "echo modified"].
Proof. vm_compute. done. Qed.

Lemma fold_each_cons {A B} (x : A) l (body : B → A → M B) acc st :
  fold_each (x :: l) body acc st =
    fold_each l body (eval (body acc x) st) (exec (body acc x) st).
Proof. simpl. unfold mbind, M_bind, eval, exec. by destruct (body acc x st). Qed.

(** ** Directory scanner *)

Section Scanner.
Context (w : World) (config : WatcherConfig).

Lemma scan_file_run root file_map filename st :
  scan_file w root file_map filename st =
    (<[os_path_join root filename :=
         match os_stat w (tick st) (os_path_join root filename) with
         | Some (m, s) => mkFileInfo (os_path_join root filename) m s true
         | None => absent (os_path_join root filename)
         end]> file_map,
     set_tick (S (tick st)) st).
Proof. reflexivity. Qed.

Lemma scan_files_spec root files : ∀ file_map st,
  let r := fold_each files (scan_file w root) file_map st in
  (tick st ≤ tick r.2)%nat
  ∧ trace r.2 = trace st
  ∧ dom r.1 = dom file_map ∪ list_to_set (os_path_join root <$> files)
  ∧ ∀ q, stat_fails w q st r.2 →
      q ∈ os_path_join root <$> files ∨ file_map !! q = Some (absent q) →
      r.1 !! q = Some (absent q).
Proof.
  induction files as [|f files IH]; intros file_map st.
  - simpl. split; [lia|]. split; [done|]. split.
    { by rewrite union_empty_r_L. }
    intros q _ [H|H]; [by apply elem_of_nil in H | done].
  - rewrite fold_each_cons. unfold eval, exec. rewrite scan_file_run.
    cbn [fst snd].
    match goal with |- context [fold_each files _ ?fm ?s] =>
      specialize (IH fm s); destruct (fold_each files _ fm s) as [fm' st'] end.
    cbn [fst snd tick trace set_tick] in *. destruct IH as (Ht & Htr & Hd & Hq).
    split; [lia|]. split; [done|]. split.
    { rewrite Hd, dom_insert_L, fmap_cons, list_to_set_cons.
      by rewrite (assoc_L (∪)), (comm_L (∪) (dom file_map)). }
    intros q Hfail Hin. unfold stat_fails in *. cbn [tick set_tick] in *.
    apply Hq.
    { intros n Hn. apply Hfail. lia. }
    destruct (decide (q = os_path_join root f)) as [->|Hne].
    + right. rewrite lookup_insert_eq. rewrite Hfail; [done | lia].
    + destruct Hin as [Hin|Hin].
      * left. rewrite fmap_cons in Hin. apply elem_of_cons in Hin as [?|?]; done.
      * right. by rewrite lookup_insert_ne.
Qed.

Lemma scan_entries_spec entries : ∀ file_map st,
  let r := fold_each entries (scan_files w) file_map st in
  (tick st ≤ tick r.2)%nat
  ∧ trace r.2 = trace st
  ∧ dom r.1 = dom file_map
              ∪ list_to_set ('(root, files) ← entries; os_path_join root <$> files)
  ∧ ∀ q, stat_fails w q st r.2 →
      q ∈ ('(root, files) ← entries; os_path_join root <$> files)
      ∨ file_map !! q = Some (absent q) →
      r.1 !! q = Some (absent q).
Proof.
  induction entries as [|[root files] entries IH]; intros file_map st.
  - simpl. split; [lia|]. split; [done|]. split.
    { by rewrite union_empty_r_L. }
    intros q _ [H|H]; [by apply elem_of_nil in H | done].
  - rewrite fold_each_cons. unfold eval, exec. cbn [scan_files].
    pose proof (scan_files_spec root files file_map st) as H1.
    destruct (fold_each files _ file_map st) as [fm1 st1].
    cbn [fst snd] in *. destruct H1 as (Ht1 & Htr1 & Hd1 & Hq1).
    specialize (IH fm1 st1).
    destruct (fold_each entries _ fm1 st1) as [fm2 st2].
    cbn [fst snd] in *. destruct IH as (Ht2 & Htr2 & Hd2 & Hq2).
    split; [lia|]. split; [congruence|]. split.
    { rewrite Hd2, Hd1, bind_cons, list_to_set_app_L. by rewrite (assoc_L (∪)). }
    intros q Hfail Hin. unfold stat_fails in *. apply Hq2.
    { intros n Hn. apply Hfail. lia. }
    rewrite bind_cons, elem_of_app in Hin.
    destruct Hin as [[Hin|Hin]|Hin].
    + right. apply Hq1; [|by left]. intros n Hn. apply Hfail. lia.
    + by left.
    + right. apply Hq1; [|by right]. intros n Hn. apply Hfail. lia.
Qed.

Lemma _scan_directory_run directory st :
  _scan_directory w config directory st =
    fold_each (visited w config (tick st) directory) (scan_files w) ∅
      (set_tick (S (tick st)) (set_trace (trace st ++ [Scan directory]) st)).
Proof. reflexivity. Qed.

Lemma _scan_directory_spec directory st :
  let r := _scan_directory w config directory st in
  (tick st < tick r.2)%nat
  ∧ trace r.2 = trace st ++ [Scan directory]
  ∧ dom r.1 = list_to_set (listed_paths w config (tick st) directory)
  ∧ ∀ q, stat_fails w q st r.2 →
      q ∈ listed_paths w config (tick st) directory →
      r.1 !! q = Some (absent q).
Proof.
  cbv zeta. rewrite _scan_directory_run.
  match goal with |- context [fold_each ?l _ ?fm ?s] =>
    pose proof (scan_entries_spec l fm s) as H end.
  destruct (fold_each _ _ _ _) as [fm st']. cbn [fst snd tick trace set_tick set_trace] in *.
  destruct H as (Ht & Htr & Hd & Hq).
  split; [lia|]. split; [done|]. split.
  { rewrite Hd, dom_empty_L. by rewrite union_empty_l_L. }
  intros q Hfail Hin. apply Hq; [|by left].
  intros n Hn. apply Hfail. cbn [tick set_tick] in Hn. lia.
Qed.
End Scanner.

(** C2 as stated fails: a listed file on which [os.stat] fails
    throughout the scan is not left out of the result. *)
Lemma scan_excludes_failed_stat_counterexample :
  ¬ (∀ w config directory st q,
       q ∈ listed_paths w config (tick st) directory →
       stat_fails w q st (exec (_scan_directory w config directory) st) →
       eval (_scan_directory w config directory) st !! q = None).
Proof.
  intros H.
  specialize (H world_dangling config_show "/w" State_init "/w/link").
  discriminate H.
  - vm_compute. apply list_elem_of_here.
  - intros n _. reflexivity.
Qed.

(** C2, amended. A file on which [os.stat] fails during a directory
    scan is recorded in the scan result with a snapshot whose [exists] is
    false (and modification time and size 0); the failure is not
    propagated and the scan completes: the result has an entry for every
    listed file. *)
Theorem scan_records_failed_stat_as_absent w config directory st q :
  q ∈ listed_paths w config (tick st) directory →
  stat_fails w q st (exec (_scan_directory w config directory) st) →
  eval (_scan_directory w config directory) st !! q = Some (absent q)
  ∧ dom (eval (_scan_directory w config directory) st)
    = list_to_set (listed_paths w config (tick st) directory).
Proof.
  intros Hin Hfail.
  destruct (_scan_directory_spec w config directory st) as (_ & _ & Hd & Hq).
  split; [by apply Hq | exact Hd].
Qed.

Lemma scan_records_failed_stat_as_absent_witness :
  eval (_scan_directory world_dangling config_show "/w") State_init !! "/w/link"
    = Some (absent "/w/link")
  ∧ dom (eval (_scan_directory world_dangling config_show "/w") State_init)
    = list_to_set (listed_paths world_dangling config_show 0 "/w").
Proof.
  apply (scan_records_failed_stat_as_absent world_dangling config_show "/w"
           State_init "/w/link").
  - vm_compute. apply list_elem_of_here.
  - intros n _. reflexivity.
Defined.

(** ** Debounce *)

Lemma commands_app tr1 tr2 : commands (tr1 ++ tr2) = commands tr1 ++ commands tr2.
Proof. apply omap_app. Qed.

Lemma runs_trans cs1 cs2 st1 st2 st3 :
  runs cs1 st1 st2 → runs cs2 st2 st3 → runs (cs1 ++ cs2) st1 st3.
Proof.
  intros (tr1 & E1 & C1) (tr2 & E2 & C2). exists (tr1 ++ tr2).
  rewrite E2, E1, <- app_assoc, commands_app. by subst.
Qed.

#[export] Instance runs_nil_preorder : PreOrder (runs []).
Proof.
  split.
  - intros st. exists []. by rewrite app_nil_r.
  - intros x y z H1 H2. apply (runs_trans [] [] x y z H1 H2).
Qed.

Lemma runs_bind {A B} (m : M A) (f : A → M B) cs1 cs2 st :
  runs cs1 st (exec m st) → (∀ a st', runs cs2 st' (exec (f a) st')) →
  runs (cs1 ++ cs2) st (exec (m ≫= f) st).
Proof. intros H1 H2. rewrite exec_bind. eapply runs_trans; [done | apply H2]. Qed.

Lemma runs_produced {A} (m : M A) cs st :
  runs cs st (exec m st) → commands (produced m st) = cs.
Proof. intros (tr & E & C). by rewrite (produced_spec m st tr). Qed.

Section Debounce.
Context (w : World) (config : WatcherConfig).

Lemma log_runs msg : respects (runs []) (log w config msg).
Proof. unfold log, _log_to_file. respects_tac. Qed.
Lemma log_keeps_last_change msg : respects (keeps last_change) (log w config msg).
Proof. unfold log, _log_to_file. respects_tac. Qed.
Lemma log_keeps_tick msg : respects (keeps tick) (log w config msg).
Proof. unfold log, _log_to_file. respects_tac. Qed.
Lemma log_keeps_stop msg : respects (keeps stop_flag) (log w config msg).
Proof. unfold log, _log_to_file. respects_tac. Qed.
Hint Resolve log_runs log_keeps_last_change log_keeps_tick log_keeps_stop : fw.

Lemma _should_run_true st :
  elapsed_ok w config st →
  _should_run w config st =
    (true, set_last_change (time_time w (tick st)) (set_tick (S (tick st)) st)).
Proof.
  intros H. unfold _should_run, mbind, M_bind, next_tick, get, modify, mret, M_ret.
  cbn. apply Qle_bool_iff in H. by rewrite H.
Qed.

Lemma _should_run_false st :
  ¬ elapsed_ok w config st →
  _should_run w config st = (false, set_tick (S (tick st)) st).
Proof.
  intros H. unfold _should_run, mbind, M_bind, next_tick, get, modify, mret, M_ret.
  cbn. unfold elapsed_ok in H. rewrite <- Qle_bool_iff in H.
  by apply Bool.not_true_is_false in H as ->.
Qed.

Lemma _run_command_fires command event_type path st :
  nonempty command = true → elapsed_ok w config st →
  exec (_run_command w config command event_type path) st =
    exec (launch w config command event_type)
      (set_last_change (time_time w (tick st)) (set_tick (S (tick st)) st)).
Proof.
  intros Hc He. unfold _run_command. rewrite Hc. cbn [negb].
  rewrite exec_bind. unfold eval, exec at 2. rewrite (_should_run_true st He).
  reflexivity.
Qed.

Lemma _run_command_drops command event_type path st :
  nonempty command = true → ¬ elapsed_ok w config st →
  exec (_run_command w config command event_type path) st =
    exec (when (show_events config) (log w config ("⏳ Debouncing: " +:+ path)))
      (set_tick (S (tick st)) st).
Proof.
  intros Hc He. unfold _run_command. rewrite Hc. cbn [negb].
  rewrite exec_bind. unfold eval, exec at 2. rewrite (_should_run_false st He).
  reflexivity.
Qed.

Lemma launch_keeps_last_change c e : respects (keeps last_change) (launch w config c e).
Proof. unfold launch. respects_tac. Qed.

Lemma launch_runs c e st : runs [c] st (exec (launch w config c e) st).
Proof.
  unfold launch.
  apply (runs_bind _ _ [] [c]); [apply log_runs|]. intros _ st1.
  apply (runs_bind _ _ [] [c]).
  { assert (respects (runs []) next_tick) as Hn by respects_prim. apply Hn. }
  intros n st2.
  apply (runs_bind _ _ [c] []).
  { exists [Exec c]. done. }
  intros _ st3. revert st3. change (respects (runs []) (
    match subprocess_run w n c with
    | Completed returncode stdout stderr =>
        when (nonempty stdout) (emit (Print stdout));;
        when (nonempty stderr) (emit (PrintErr stderr));;
        (if (returncode =? 0)%Z
         then log w config ("✅ " +:+ e +:+ " command succeeded")
         else log w config ("❌ " +:+ e +:+ " command failed (exit "
                +:+ pretty returncode +:+ ")"))
    | TimeoutExpired => log w config "⏰ Command timed out"
    | LaunchError e0 => log w config ("❌ Command error: " +:+ e0)
    end;; when (oneshot config) (modify (set_stop_flag true)))).
  respects_tac.
Qed.

Lemma launch_sets_stop_flag c e st :
  oneshot config = true → stop_flag (exec (launch w config c e) st) = true.
Proof.
  intros Ho. unfold launch. rewrite !exec_bind, Ho. reflexivity.
Qed.

Lemma drop_runs path : respects (runs [])
  (when (show_events config) (log w config ("⏳ Debouncing: " +:+ path))).
Proof. respects_tac. Qed.
Lemma drop_keeps_last_change path : respects (keeps last_change)
  (when (show_events config) (log w config ("⏳ Debouncing: " +:+ path))).
Proof. respects_tac. Qed.

Lemma handle_change_exec path o n st :
  should_process config path = true →
  exec (handle_change w config path o n) st =
    exec (_run_command w config (resolved_command config (event_type o n))
            (event_type o n) path)
      (exec (when (show_events config)
               (log w config (event_message (event_type o n) path))) st).
Proof.
  intros Hp. unfold exec at 1. rewrite handle_change_by_type, Hp. cbn [negb].
  unfold exec, mbind, M_bind. by destruct (when _ _ st).
Qed.

(** A qualifying event whose debounce check passes: the resolved
    command is run, once, and the clock reading becomes the last
    trigger time. *)
Lemma handle_change_fires path o n st :
  should_process config path = true →
  nonempty (resolved_command config (event_type o n)) = true →
  elapsed_ok w config st →
  commands (produced (handle_change w config path o n) st)
    = [resolved_command config (event_type o n)]
  ∧ last_change (exec (handle_change w config path o n) st) = time_time w (tick st).
Proof.
  intros Hp Hc He.
  set (shown := when (show_events config)
                  (log w config (event_message (event_type o n) path))).
  assert (exec (handle_change w config path o n) st =
          exec (launch w config (resolved_command config (event_type o n)) (event_type o n))
            (set_last_change (time_time w (tick (exec shown st)))
               (set_tick (S (tick (exec shown st))) (exec shown st)))) as E.
  { rewrite (handle_change_exec path o n st Hp). fold shown.
    apply _run_command_fires; [done|].
    unfold elapsed_ok.
    assert (respects (keeps tick) shown) as -> by (unfold shown; respects_tac).
    assert (respects (keeps last_change) shown) as -> by (unfold shown; respects_tac).
    done. }
  assert (tick (exec shown st) = tick st) as Et.
  { assert (respects (keeps tick) shown) as H by (unfold shown; respects_tac). apply H. }
  split.
  - apply runs_produced. rewrite E.
    change [?c] with ([] ++ [c]). eapply runs_trans; [|apply launch_runs].
    assert (respects (runs []) shown) as H by (unfold shown; respects_tac).
    destruct (H st) as (tr & Etr & Ctr). exists tr. done.
  - rewrite E, launch_keeps_last_change. cbn. by rewrite Et.
Qed.

(** A qualifying event whose debounce check fails: no command is run
    and the last trigger time stays. *)
Lemma handle_change_drops path o n st :
  should_process config path = true →
  nonempty (resolved_command config (event_type o n)) = true →
  ¬ elapsed_ok w config st →
  commands (produced (handle_change w config path o n) st) = []
  ∧ last_change (exec (handle_change w config path o n) st) = last_change st.
Proof.
  intros Hp Hc He.
  set (shown := when (show_events config)
                  (log w config (event_message (event_type o n) path))).
  assert (respects (keeps tick) shown) as Ht by (unfold shown; respects_tac).
  assert (respects (keeps last_change) shown) as Hl by (unfold shown; respects_tac).
  assert (respects (runs []) shown) as Hr by (unfold shown; respects_tac).
  assert (exec (handle_change w config path o n) st =
          exec (when (show_events config) (log w config ("⏳ Debouncing: " +:+ path)))
            (set_tick (S (tick (exec shown st))) (exec shown st))) as E.
  { rewrite (handle_change_exec path o n st Hp). fold shown.
    apply _run_command_drops; [done|].
    unfold elapsed_ok. by rewrite Ht, Hl. }
  split.
  - apply runs_produced. rewrite E.
    change [] with (@nil string ++ []). eapply runs_trans; [|apply drop_runs].
    destruct (Hr st) as (tr & Etr & Ctr). exists tr. done.
  - rewrite E, drop_keeps_last_change. cbn. apply Hl.
Qed.
End Debounce.

(** C3 as stated fails: "no prior trigger recorded" is the value 0 of
    [last_change], the epoch, and the first event fires only if the
    clock reads at least one debounce window after it. With a window of
    10^13 ms and the clock at 1.8 * 10^9 s the first qualifying event runs
    no command. *)
Lemma first_event_fires_counterexample :
  ¬ (∀ w config st path o n,
       should_process config path = true →
       nonempty (resolved_command config (event_type o n)) = true →
       last_change st = 0%Q →
       commands (produced (handle_change w config path o n) st)
         = [resolved_command config (event_type o n)]).
Proof.
  intros H.
  specialize (H world_a_py (config_debounce (10 ^ 13)) State_init "/w/a.py"
                (a_py 100 10) (a_py 150 10) eq_refl eq_refl eq_refl).
  vm_compute in H. discriminate H.
Qed.

(** C3, amended. Two qualifying events with a resolved command, the
    first processed at least one debounce window after the recorded
    last-trigger time (0 when none has been recorded), the second
    processed less than one debounce window after the first with no
    trigger in between: the first runs its command, once, and its clock
    reading becomes the last-trigger time; the second runs no command and
    leaves the last-trigger time as it is. *)
Theorem debounce_single_fire w config st1 st2 p1 o1 n1 p2 o2 n2 :
  let first := handle_change w config p1 o1 n1 in
  let second := handle_change w config p2 o2 n2 in
  let now1 := time_time w (tick st1) in
  let now2 := time_time w (tick st2) in
  should_process config p1 = true →
  nonempty (resolved_command config (event_type o1 n1)) = true →
  should_process config p2 = true →
  nonempty (resolved_command config (event_type o2 n2)) = true →
  (inject_Z (debounce_ms config) <= (now1 - last_change st1) * 1000)%Q →
  last_change st2 = last_change (exec first st1) →
  ((now2 - now1) * 1000 < inject_Z (debounce_ms config))%Q →
  commands (produced first st1) = [resolved_command config (event_type o1 n1)]
  ∧ last_change (exec first st1) = now1
  ∧ commands (produced second st2) = []
  ∧ last_change (exec second st2) = now1.
Proof.
  cbv zeta. intros Hp1 Hc1 Hp2 Hc2 He1 Hl Hlt.
  destruct (handle_change_fires w config p1 o1 n1 st1 Hp1 Hc1 He1) as [Hr1 Hl1].
  destruct (handle_change_drops w config p2 o2 n2 st2 Hp2 Hc2) as [Hr2 Hl2].
  { unfold elapsed_ok. rewrite Hl, Hl1. apply Qlt_not_le, Hlt. }
  repeat split; try done.
  rewrite Hl2, Hl. exact Hl1.
Qed.

Lemma debounce_single_fire_witness :
  let first := handle_change world_a_py (config_debounce 5000) "/w/a.py"
                 (a_py 100 10) (a_py 150 10) in
  let second := handle_change world_a_py (config_debounce 5000) "/w/a.py"
                  (a_py 150 10) (a_py 170 10) in
  commands (produced first State_init) = ["echo modified"]
  ∧ last_change (exec first State_init) = time_time world_a_py 0
  ∧ commands (produced second (exec first State_init)) = []
  ∧ last_change (exec second (exec first State_init)) = time_time world_a_py 0.
Proof.
  apply (debounce_single_fire world_a_py (config_debounce 5000) State_init
           (exec (handle_change world_a_py (config_debounce 5000) "/w/a.py"
                    (a_py 100 10) (a_py 150 10)) State_init)
           "/w/a.py" (a_py 100 10) (a_py 150 10)
           "/w/a.py" (a_py 150 10) (a_py 170 10)).
  - reflexivity.
  - reflexivity.
  - reflexivity.
  - reflexivity.
  - vm_compute. discriminate.
  - reflexivity.
  - vm_compute. reflexivity.
Defined.

(** ** Oneshot mode and the stop flag *)

#[export] Instance oneshot_step_preorder : PreOrder oneshot_step.
Proof.
  split.
  - intros st. split; [done|]. exists []. split; [by rewrite app_nil_r | by right].
  - intros x y z (M1 & tr1 & E1 & H1) (M2 & tr2 & E2 & H2).
    split; [auto|]. exists (tr1 ++ tr2).
    split; [by rewrite E2, E1, <- app_assoc|].
    destruct H2 as [H2|H2]; [by left|].
    destruct H1 as [H1|H1]; [left; auto|].
    right. by rewrite commands_app, H1, H2.
Qed.

Section Oneshot.
Context (w : World) (config : WatcherConfig).
Hypothesis Hone : oneshot config = true.

Lemma log_oneshot msg : respects oneshot_step (log w config msg).
Proof. unfold log, _log_to_file. respects_tac. Qed.
Hint Resolve log_oneshot : fw.

Lemma _run_command_oneshot c e p : respects oneshot_step (_run_command w config c e p).
Proof.
  intros st. destruct (nonempty c) eqn:Hc.
  2: { unfold _run_command. rewrite Hc. reflexivity. }
  destruct (Qle_bool (inject_Z (debounce_ms config))
              ((time_time w (tick st) - last_change st) * 1000)) eqn:He.
  - apply Qle_bool_iff in He.
    rewrite (_run_command_fires w config c e p st Hc He).
    pose proof (launch_sets_stop_flag w config c e
      (set_last_change (time_time w (tick st)) (set_tick (S (tick st)) st)) Hone) as Hs.
    destruct (launch_runs w config c e
      (set_last_change (time_time w (tick st)) (set_tick (S (tick st)) st)))
      as (tr & Etr & _).
    split; [done|]. exists tr. split; [exact Etr | by left].
  - assert (¬ elapsed_ok w config st) as Hn.
    { unfold elapsed_ok. rewrite <- Qle_bool_iff, He. discriminate. }
    rewrite (_run_command_drops w config c e p st Hc Hn).
    pose proof (respects_when oneshot_step (show_events config) _
                  (log_oneshot ("⏳ Debouncing: " +:+ p))) as Hw.
    etrans; [|apply Hw].
    destruct st. split; [done|]. exists []. split; [by rewrite app_nil_r | by right].
Qed.
Hint Resolve _run_command_oneshot : fw.

Lemma handle_change_oneshot p o n : respects oneshot_step (handle_change w config p o n).
Proof. unfold handle_change. respects_tac. Qed.
Hint Resolve handle_change_oneshot : fw.

Lemma FileInfo_init_oneshot p : respects oneshot_step (FileInfo_init w p).
Proof. unfold FileInfo_init, FileInfo_update. respects_tac. Qed.
Hint Resolve FileInfo_init_oneshot : fw.

Lemma compare_path_oneshot cs p : respects oneshot_step (compare_path w config cs p).
Proof. unfold compare_path, call_handle_change. respects_tac. Qed.
Hint Resolve compare_path_oneshot : fw.

Lemma detect_changes_oneshot cs : respects oneshot_step (detect_changes w config cs).
Proof. unfold detect_changes, iter_set. respects_tac. Qed.

Lemma _scan_directory_oneshot d : respects oneshot_step (_scan_directory w config d).
Proof. unfold _scan_directory, scan_files, scan_file. respects_tac. Qed.
Hint Resolve detect_changes_oneshot _scan_directory_oneshot : fw.

Lemma poll_cycle_oneshot wp : respects oneshot_step (poll_cycle w config wp).
Proof. unfold poll_cycle, scan_all. respects_tac. Qed.

Lemma watch_loop_stopped fuel wp st :
  stop_flag st = true →
  watch_loop w config (S fuel) wp st = (Some 0%Z, set_stop_flag true st).
Proof.
  intros Hs. simpl. unfold mbind, M_bind, get. by rewrite Hs.
Qed.

Lemma watch_loop_step fuel wp st :
  stop_flag st = false → sigint w (tick st) = false →
  watch_loop w config (S fuel) wp st =
    watch_loop w config fuel wp (exec (poll_cycle w config wp) (after_sleep config st)).
Proof.
  intros Hs Hi. simpl. unfold mbind at 1, M_bind at 1, get. rewrite Hs.
  unfold mbind at 1, M_bind at 1, next_tick.
  unfold mbind at 1, M_bind at 1, emit, modify. rewrite Hi.
  unfold mbind at 1, M_bind at 1, exec.
  fold (after_sleep config st). cbn [tick set_trace set_tick].
  by destruct (poll_cycle _ _ _ _).
Qed.
End Oneshot.

(** C4. In oneshot mode every execution attempt of a dispatched command
    sets the stop flag, whatever the world makes of the attempt (exit 0,
    another exit code, timeout, failure to launch); a poll cycle in which
    a command was run ends with the stop flag set; and once the flag is
    set the watch loop stops with exit code 0 without another effect: no
    sleep, no scan. So the cycle that dispatches is the last one. *)
Theorem oneshot_stops_after_dispatch w config :
  oneshot config = true →
  (∀ command event_type path st,
     nonempty command = true → elapsed_ok w config st →
     commands (produced (_run_command w config command event_type path) st) = [command]
     ∧ stop_flag (exec (_run_command w config command event_type path) st) = true)
  ∧ (∀ watch_paths st,
       commands (produced (poll_cycle w config watch_paths) st) ≠ [] →
       stop_flag (exec (poll_cycle w config watch_paths) st) = true)
  ∧ (∀ fuel watch_paths st,
       stop_flag st = true →
       eval (watch_loop w config (S fuel) watch_paths) st = Some 0%Z
       ∧ produced (watch_loop w config (S fuel) watch_paths) st = [])
  ∧ (∀ fuel watch_paths st,
       stop_flag st = false → sigint w (tick st) = false →
       commands (produced (poll_cycle w config watch_paths) (after_sleep config st)) ≠ [] →
       watch_loop w config (S (S fuel)) watch_paths st
       = (Some 0%Z,
          set_stop_flag true (exec (poll_cycle w config watch_paths) (after_sleep config st)))).
Proof.
  intros Hone.
  assert (∀ wp st, commands (produced (poll_cycle w config wp) st) ≠ [] →
                   stop_flag (exec (poll_cycle w config wp) st) = true) as Hcycle.
  { intros wp st Hrun.
    destruct (poll_cycle_oneshot w config Hone wp st) as (_ & tr & E & [Hs|Hc]); [done|].
    by rewrite (produced_spec _ _ tr E) in Hrun. }
  split; [|split; [|split]].
  - intros c e p st Hc He. rewrite (_run_command_fires w config c e p st Hc He).
    split; [|by apply launch_sets_stop_flag].
    apply runs_produced. rewrite (_run_command_fires w config c e p st Hc He).
    destruct (launch_runs w config c e
      (set_last_change (time_time w (tick st)) (set_tick (S (tick st)) st)))
      as (tr & Etr & Ctr).
    exists tr. done.
  - exact Hcycle.
  - intros fuel wp st Hs. unfold eval, produced, exec.
    rewrite (watch_loop_stopped w config fuel wp st Hs). split; [done|].
    cbn. apply drop_all.
  - intros fuel wp st Hs Hi Hrun.
    rewrite (watch_loop_step w config (S fuel) wp st Hs Hi).
    apply watch_loop_stopped, Hcycle, Hrun.
Qed.

(** A whole run in oneshot mode: baseline scan, one sleep, one scan, the
    new file is handled, the command fails, and [start] returns 0
    without another sleep or scan although fuel is left. *)
Example oneshot_run :
  let r := start world_appearing config_oneshot 50 State_init in
  r.1 = Some 0%Z
  ∧ stop_flag r.2 = true
  ∧ trace r.2
    = [ Scan "/w"; Sleep 1; Scan "/w";
        Change "/w/a.py" (a_py 100 10) (a_py 100 10);
        Print "[12:00:00] 🚀 Running: pytest";
        Exec "pytest";
        PrintErr "boom";
        Print "[12:00:00] ❌ modify command failed (exit 1)" ].
Proof. vm_compute. done. Qed.

Lemma oneshot_stops_after_dispatch_witness :
  commands (produced (_run_command world_timeout config_oneshot "pytest" "modify" "/w/a.py")
              State_init) = ["pytest"]
  ∧ stop_flag (exec (_run_command world_timeout config_oneshot "pytest" "modify" "/w/a.py")
                 State_init) = true.
Proof.
  apply (oneshot_stops_after_dispatch world_timeout config_oneshot eq_refl).
  - reflexivity.
  - vm_compute. discriminate.
Defined.

(** ** Startup and exit codes *)

Lemma valid_roots_nil w dirs : ∀ n,
  valid_roots w n dirs = [] ↔
  ∀ i d, dirs !! i = Some d → os_path_exists w (n + i) (os_path_abspath w d) = false.
Proof.
  induction dirs as [|d dirs IH]; intros n; simpl.
  - split; [|done]. intros _ i d' H. by rewrite lookup_nil in H.
  - split.
    + intros H. apply app_eq_nil in H as [H1 H2]. intros [|i] d' Hd; simpl in Hd.
      * injection Hd as <-. rewrite Nat.add_0_r.
        by destruct (os_path_exists w n (os_path_abspath w d)).
      * replace (n + S i)%nat with (S n + i)%nat by lia.
        by apply (proj1 (IH (S n)) H2).
    + intros H.
      pose proof (H 0%nat d eq_refl) as H0. rewrite Nat.add_0_r in H0.
      rewrite H0. simpl. apply IH.
      intros i d' Hd. replace (S n + i)%nat with (n + S i)%nat by lia.
      by apply H.
Qed.

Section Startup.
Context (w : World) (config : WatcherConfig).

Lemma check_root_run acc d st :
  check_root w acc d st =
    (if os_path_exists w (tick st) (os_path_abspath w d)
     then acc ++ [os_path_abspath w d] else acc,
     set_tick (S (tick st)) st).
Proof. reflexivity. Qed.

Lemma resolve_fold dirs : ∀ acc st,
  fold_each dirs (check_root w) acc st
  = (acc ++ valid_roots w (tick st) dirs, set_tick (tick st + length dirs) st).
Proof.
  induction dirs as [|d dirs IH]; intros acc st.
  - simpl. rewrite app_nil_r, Nat.add_0_r. by destruct st.
  - rewrite fold_each_cons. unfold eval, exec. rewrite check_root_run.
    cbn [fst snd]. rewrite IH. destruct st. cbn. f_equal.
    + destruct (os_path_exists _ _ _); [|done]. by rewrite <- app_assoc.
    + unfold set_tick. cbn. f_equal. lia.
Qed.

Lemma resolve_watch_paths_run st :
  resolve_watch_paths w config st =
    (valid_roots w (tick st) (effective_watch_dirs w config),
     set_tick (tick st + length (effective_watch_dirs w config)) st).
Proof. unfold resolve_watch_paths. by rewrite resolve_fold. Qed.
End Startup.

(** Every method of the watcher respects a preorder that each single
    update of the state respects. *)
Section Everywhere.
Context (w : World) (config : WatcherConfig).
Context (R : relation State) `{!PreOrder R}.
Hypothesis R_tick : ∀ st, R st (set_tick (S (tick st)) st).
Hypothesis R_trace : ∀ st e, R st (set_trace (trace st ++ [e]) st).
Hypothesis R_history : ∀ st h, R st (set_log_history h st).
Hypothesis R_last : ∀ st x, R st (set_last_change x st).
Hypothesis R_stop : ∀ st, R st (set_stop_flag true st).
Hypothesis R_states : ∀ st x, R st (set_file_states x st).

Ltac update_step :=
  let st := fresh "st" in
  intros st; unfold exec, modify, emit, next_tick, get; cbn [snd]; auto.

Ltac everywhere :=
  repeat first [ respects_step | solve [update_step] ].

Lemma log_everywhere msg : respects R (log w config msg).
Proof. unfold log, _log_to_file. everywhere. Qed.
Hint Resolve log_everywhere : fw.

Lemma _run_command_everywhere c e p : respects R (_run_command w config c e p).
Proof. unfold _run_command, launch, _should_run. everywhere. Qed.
Hint Resolve _run_command_everywhere : fw.

Lemma handle_change_everywhere p o n : respects R (handle_change w config p o n).
Proof. unfold handle_change. everywhere. Qed.
Hint Resolve handle_change_everywhere : fw.

Lemma FileInfo_init_everywhere p : respects R (FileInfo_init w p).
Proof. unfold FileInfo_init, FileInfo_update. everywhere. Qed.
Hint Resolve FileInfo_init_everywhere : fw.

Lemma _scan_directory_everywhere d : respects R (_scan_directory w config d).
Proof. unfold _scan_directory, scan_files, scan_file. everywhere. Qed.
Hint Resolve _scan_directory_everywhere : fw.

Lemma compare_path_everywhere cs p : respects R (compare_path w config cs p).
Proof. unfold compare_path, call_handle_change. everywhere. Qed.
Hint Resolve compare_path_everywhere : fw.

Lemma poll_cycle_everywhere wp : respects R (poll_cycle w config wp).
Proof. unfold poll_cycle, scan_all, detect_changes, iter_set. everywhere. Qed.

Lemma initial_scan_everywhere wp : respects R (initial_scan w config wp).
Proof. unfold initial_scan. everywhere. Qed.
End Everywhere.

Section Loop.
Context (w : World) (config : WatcherConfig).

Lemma poll_cycle_tick wp : respects tick_le (poll_cycle w config wp).
Proof.
  apply poll_cycle_everywhere; [tc_solve|..]; intros [] **; cbv; lia.
Qed.

Lemma poll_cycle_grows wp : respects (grows any_effect) (poll_cycle w config wp).
Proof.
  apply poll_cycle_everywhere; [tc_solve|..]; intros [] **; cbn;
    first [ by (exists []; split; [by rewrite app_nil_r | constructor])
          | by (eexists [_]; split; [reflexivity | repeat constructor]) ].
Qed.
End Loop.

Section Start.
Context (w : World) (config : WatcherConfig).

Lemma initial_scan_trace wp : ∀ st,
  trace (exec (initial_scan w config wp) st) = trace st ++ (Scan <$> wp).
Proof.
  unfold initial_scan.
  induction wp as [|d wp IH]; intros st; simpl.
  - by rewrite app_nil_r.
  - rewrite exec_bind, IH. rewrite exec_bind.
    destruct (_scan_directory_spec w config d st) as (_ & Htr & _).
    unfold exec at 1. cbn. unfold exec. rewrite Htr. by rewrite <- app_assoc.
Qed.

Lemma watch_loop_sigint fuel wp st :
  stop_flag st = false → sigint w (tick st) = true →
  eval (watch_loop w config (S fuel) wp) st = Some 0%Z.
Proof.
  intros Hs Hi. unfold eval. simpl. unfold mbind at 1, M_bind at 1, get. rewrite Hs.
  unfold mbind at 1, M_bind at 1, next_tick.
  unfold mbind at 1, M_bind at 1, emit, modify. by rewrite Hi.
Qed.

Lemma watch_loop_result fuel : ∀ wp st,
  eval (watch_loop w config fuel wp) st = None
  ∨ eval (watch_loop w config fuel wp) st = Some 0%Z.
Proof.
  induction fuel as [|fuel IH]; intros wp st; [by left|].
  destruct (stop_flag st) eqn:Hs.
  { right. unfold eval. by rewrite watch_loop_stopped. }
  destruct (sigint w (tick st)) eqn:Hi.
  { right. by apply watch_loop_sigint. }
  unfold eval. rewrite (watch_loop_step w config fuel wp st Hs Hi). apply IH.
Qed.

Lemma after_poll_cycle_tick wp st :
  (tick st < tick (exec (poll_cycle w config wp) (after_sleep config st)))%nat.
Proof.
  pose proof (poll_cycle_tick w config wp (after_sleep config st)) as H.
  unfold tick_le in H. cbn in H. lia.
Qed.

Lemma watch_loop_interrupted N :
  (∀ n, (N ≤ n)%nat → sigint w n = true) →
  ∀ fuel wp st, (N < tick st + S fuel)%nat →
    eval (watch_loop w config (S fuel) wp) st = Some 0%Z.
Proof.
  intros HN fuel. induction fuel as [|fuel IH]; intros wp st Hlt.
  - destruct (stop_flag st) eqn:Hs.
    { unfold eval. by rewrite watch_loop_stopped. }
    apply watch_loop_sigint; [done|]. apply HN. lia.
  - destruct (stop_flag st) eqn:Hs.
    { unfold eval. by rewrite watch_loop_stopped. }
    destruct (sigint w (tick st)) eqn:Hi.
    { by apply watch_loop_sigint. }
    unfold eval. rewrite (watch_loop_step w config (S fuel) wp st Hs Hi).
    apply IH. pose proof (after_poll_cycle_tick wp st).
    destruct (decide (N ≤ tick st)%nat) as [Hle|Hgt]; [|lia].
    rewrite (HN _ Hle) in Hi. discriminate Hi.
Qed.

Lemma watch_loop_grows fuel : ∀ wp,
  respects (grows any_effect) (watch_loop w config fuel wp).
Proof.
  induction fuel as [|fuel IH]; intros wp; simpl; [apply respects_ret; tc_solve|].
  pose proof (poll_cycle_grows w config wp). unfold stop.
  respects_tac.
Qed.

Lemma start_run fuel st :
  start w config fuel st =
    let st0 := set_tick (tick st + length (effective_watch_dirs w config)) st in
    match valid_roots w (tick st) (effective_watch_dirs w config) with
    | [] => (Some 1%Z, st0)
    | wp =>
        (initial_scan w config wp;;
         when (initial_run config && nonempty (command config))
              (_ ← next_tick; emit (Exec (command config)));;
         watch_loop w config fuel wp) st0
    end.
Proof.
  unfold start. unfold mbind at 1, M_bind at 1. rewrite resolve_watch_paths_run.
  by destruct (valid_roots _ _ _).
Qed.
End Start.

(** C5. If every watch root (the configured ones, or the current
    directory when none is configured) fails [os.path.exists] when
    [start] checks it, [start] returns exit code 1 without any effect, in
    particular without a scan. Otherwise [start] first scans each valid
    root once, which produces nothing but these scans, and whenever it
    returns it returns exit code 0; it does return, for instance once an
    interrupt arrives. *)
Theorem start_exit_code w config st :
  let dirs := effective_watch_dirs w config in
  ((∀ i d, dirs !! i = Some d →
           os_path_exists w (tick st + i) (os_path_abspath w d) = false) →
   ∀ fuel, eval (start w config fuel) st = Some 1%Z
           ∧ produced (start w config fuel) st = [])
  ∧ ((∃ i d, dirs !! i = Some d
             ∧ os_path_exists w (tick st + i) (os_path_abspath w d) = true) →
     (∀ fuel,
        (eval (start w config fuel) st = None
         ∨ eval (start w config fuel) st = Some 0%Z)
        ∧ valid_roots w (tick st) dirs ≠ []
        ∧ ∃ rest, produced (start w config fuel) st
                  = (Scan <$> valid_roots w (tick st) dirs) ++ rest)
     ∧ (∀ N, (∀ n, (N ≤ n)%nat → sigint w n = true) →
             ∃ fuel, eval (start w config fuel) st = Some 0%Z)).
Proof.
  cbv zeta. split.
  - intros Hnone fuel. apply valid_roots_nil in Hnone.
    unfold eval, produced, exec. rewrite start_run, Hnone. cbn.
    split; [done | apply drop_all].
  - intros (i & d & Hd & Hex).
    assert (valid_roots w (tick st) (effective_watch_dirs w config) ≠ []) as Hne.
    { intros Hnil. rewrite valid_roots_nil in Hnil.
      rewrite (Hnil i d Hd) in Hex. discriminate Hex. }
    set (st0 := set_tick (tick st + length (effective_watch_dirs w config)) st).
    set (wp := valid_roots w (tick st) (effective_watch_dirs w config)) in *.
    set (init := when (initial_run config && nonempty (command config))
                   (_ ← next_tick; emit (Exec (command config)))).
    assert (∀ fuel, start w config fuel st =
              (initial_scan w config wp;; init;; watch_loop w config fuel wp) st0) as Hrun.
    { intros fuel. rewrite start_run. cbv zeta. fold wp st0.
      by destruct wp. }
    split.
    + intros fuel. split; [|split; [done|]].
      * unfold eval. rewrite Hrun. fold (eval (initial_scan w config wp;; init;;
          watch_loop w config fuel wp) st0). rewrite !eval_bind. apply watch_loop_result.
      * assert (respects (grows any_effect) (init;; watch_loop w config fuel wp)) as Hg.
        { pose proof (watch_loop_grows w config fuel wp). unfold init. respects_tac. }
        destruct (Hg (exec (initial_scan w config wp) st0)) as (rest & Erest & _).
        exists rest. apply produced_spec. unfold exec at 1. rewrite Hrun.
        fold (exec (initial_scan w config wp;; init;; watch_loop w config fuel wp) st0).
        rewrite exec_bind, Erest, initial_scan_trace. by rewrite app_assoc.
    + intros N HN. exists (S N). unfold eval. rewrite Hrun.
      fold (eval (initial_scan w config wp;; init;; watch_loop w config (S N) wp) st0).
      rewrite !eval_bind. apply (watch_loop_interrupted w config N HN). lia.
Qed.

Lemma start_exit_code_witness :
  (eval (start world_a_py config_nowhere 3) State_init = Some 1%Z
   ∧ produced (start world_a_py config_nowhere 3) State_init = [])
  ∧ ∃ fuel, eval (start world_a_py config_hooks fuel) State_init = Some 0%Z.
Proof.
  split.
  - apply (proj1 (start_exit_code world_a_py config_nowhere State_init)).
    intros [|[|i]] d Hd; simpl in Hd; try discriminate Hd;
      injection Hd as <-; reflexivity.
  - destruct (proj2 (start_exit_code world_a_py config_hooks State_init))
      as [_ Hterm].
    + exists 0%nat, "/w". split; reflexivity.
    + apply (Hterm 20%nat). intros n Hn. exact (proj2 (Nat.leb_le 20 n) Hn).
Defined.

(** ** Pattern filter *)

Lemma existsb_elem_of {A} (f : A → bool) (l : list A) (x : A) :
  x ∈ l → f x = true → existsb f l = true.
Proof.
  intros Hx Hf. apply existsb_exists. exists x. split; [|done].
  by apply list_elem_of_In.
Qed.

Lemma should_process_excluded config path pattern :
  pattern ∈ exclude_patterns config →
  contains pattern path = true →
  should_process config path = false.
Proof.
  intros Hin Hsub. unfold should_process.
  destruct (match watch_patterns config with [] => false | _ => _ end); [done|].
  rewrite (existsb_elem_of _ _ pattern Hin Hsub).
  destruct (exclude_patterns config); [|done].
  by apply elem_of_nil in Hin.
Qed.

(** C6. Exclude precedence: when some exclude pattern is a substring of
    the path, [should_process] rejects the path whatever the include
    patterns say, and [handle_change] on that path does nothing at all:
    it returns with the state, the log and the trace as they were, so no
    command is dispatched. *)
Theorem exclude_takes_precedence w config path pattern old_info new_info st :
  pattern ∈ exclude_patterns config →
  contains pattern path = true →
  should_process config path = false
  ∧ handle_change w config path old_info new_info st = (tt, st).
Proof.
  intros Hin Hsub.
  pose proof (should_process_excluded _ _ _ Hin Hsub) as Hno.
  split; [done|]. unfold handle_change. by rewrite Hno.
Qed.

Lemma exclude_takes_precedence_witness :
  existsb (include_match "/w/test_a.py") (watch_patterns config_py_tests) = true
  ∧ should_process config_py_tests "/w/test_a.py" = false
  ∧ handle_change world_a_py config_py_tests "/w/test_a.py"
      (absent "/w/test_a.py") (mkFileInfo "/w/test_a.py" 100 10 true) State_init
    = (tt, State_init).
Proof.
  split; [reflexivity|].
  apply (exclude_takes_precedence world_a_py config_py_tests "/w/test_a.py" "test").
  - vm_compute. apply list_elem_of_here.
  - reflexivity.
Defined.

(** ** Configuration persistence *)

(** C10. Saving a configuration record to a file and loading that file
    back gives an object whose fifteen attributes are the values of the
    fifteen fields of the record that was saved. *)
Theorem save_load_roundtrip (c : WatcherConfig) (filepath : string)
    (files : gmap string json) :
  load_config filepath (save_config c filepath files) = Some (attributes c).
Proof.
  unfold load_config, save_config. rewrite lookup_insert_eq.
  reflexivity.
Qed.

(** * Further properties *)

(** ** Strings and the pattern filter *)

Lemma append_cons x (a b : string) : String x a +:+ b = String x (a +:+ b).
Proof. reflexivity. Qed.

Lemma append_assoc (a b c : string) : (a +:+ b) +:+ c = a +:+ b +:+ c.
Proof. induction a as [|x a IH]; [done | by rewrite !append_cons, IH]. Qed.

Lemma append_empty_r (a : string) : a +:+ "" = a.
Proof. induction a as [|x a IH]; [done | by rewrite append_cons, IH]. Qed.

Lemma prefix_spec p s : String.prefix p s = true ↔ ∃ r, s = p +:+ r.
Proof.
  revert s. induction p as [|x p IH]; intros s.
  - destruct s; simpl; split; eauto.
  - destruct s as [|y s]; simpl.
    + split; [done | intros [r Hr]; discriminate Hr].
    + destruct (ascii_dec x y) as [->|Hne].
      * rewrite IH. split; intros [r Hr]; exists r; rewrite append_cons in *;
          congruence.
      * split; [done | intros [r Hr]; rewrite append_cons in Hr; congruence].
Qed.

Lemma contains_spec p s : contains p s = true ↔ occurs_in p s.
Proof.
  induction s as [|y s IH].
  - cbn [contains]. rewrite orb_false_r, prefix_spec. split.
    + intros [r Hr]. by exists "", r.
    + intros (l & r & H). destruct l; [by exists r|discriminate H].
  - cbn [contains]. rewrite orb_true_iff, IH, prefix_spec. split.
    + intros [[r Hr]|(l & r & H)].
      * by exists "", r.
      * exists (String y l), r. by rewrite append_cons, H.
    + intros (l & r & H). destruct l as [|x l].
      * left. by exists r.
      * right. exists l, r. rewrite append_cons in H. congruence.
Qed.

Lemma occurs_in_refl s : occurs_in s s.
Proof. exists "", "". by rewrite append_empty_r. Qed.

Lemma occurs_in_empty s : occurs_in "" s.
Proof. by exists "", s. Qed.

Lemma occurs_in_trans a b c : occurs_in a b → occurs_in b c → occurs_in a c.
Proof.
  intros (l1 & r1 & ->) (l2 & r2 & ->).
  exists (l2 +:+ l1), (r1 +:+ r2). by rewrite !append_assoc.
Qed.

Lemma occurs_in_cons x a s : occurs_in a s → occurs_in a (String x s).
Proof. intros (l & r & ->). by exists (String x l), r. Qed.

Lemma split_on_head c s :
  ∃ hd tl, split_on c s = hd :: tl ∧ (∃ r, s = hd +:+ r) ∧ ∀ x, x ∈ tl → occurs_in x s.
Proof.
  induction s as [|a s (hd & tl & E & [r Hr] & Htl)]; simpl.
  - exists "", []. split; [done|]. split; [by exists ""|].
    intros x Hx. by apply elem_of_nil in Hx.
  - destruct (Ascii.eqb a c).
    + exists "", (split_on c s). split; [done|]. split; [by eexists|].
      intros x Hx. apply occurs_in_cons. rewrite E in Hx.
      apply elem_of_cons in Hx as [->|Hx]; [|by apply Htl].
      exists "", r. done.
    + rewrite E. exists (String a hd), tl. split; [done|]. split.
      * exists r. by rewrite append_cons, Hr.
      * intros x Hx. by apply occurs_in_cons, Htl.
Qed.

Lemma split_on_occurs c s x : x ∈ split_on c s → occurs_in x s.
Proof.
  destruct (split_on_head c s) as (hd & tl & -> & [r Hr] & Htl).
  intros [->|Hx]%elem_of_cons; [|by apply Htl].
  exists "", r. done.
Qed.

Lemma last_elem_of {A} (l : list A) (d : A) : List.last l d = d ∨ List.last l d ∈ l.
Proof.
  induction l as [|x l IH]; [by left|].
  destruct l as [|y l]; [right; apply list_elem_of_here|].
  destruct IH as [IH|IH].
  - change (List.last (x :: y :: l) d) with (List.last (y :: l) d).
    rewrite IH. by left.
  - right. by apply list_elem_of_further.
Qed.

Lemma path_name_occurs p : occurs_in (path_name p) p.
Proof.
  unfold path_name.
  destruct (last_elem_of
    (List.filter (λ x, negb (String.eqb x "") && negb (String.eqb x "."))
       (split_on "/" p)) "") as [->|H].
  - apply occurs_in_empty.
  - apply list_elem_of_In, filter_In in H as [H _].
    by apply (split_on_occurs "/"), list_elem_of_In.
Qed.

Lemma substring_0_prefix m s : ∃ r, s = String.substring 0 m s +:+ r.
Proof.
  revert m. induction s as [|a s IH]; intros m.
  - destruct m; by exists "".
  - destruct m as [|m]; simpl; [by eexists|].
    destruct (IH m) as [r Hr]. exists r. by rewrite append_cons, <- Hr.
Qed.

Lemma substring_occurs n m s : occurs_in (String.substring n m s) s.
Proof.
  revert n. induction s as [|a s IH]; intros n.
  - destruct n, m; apply occurs_in_refl.
  - destruct n as [|n].
    + destruct (substring_0_prefix m (String a s)) as [r Hr]. by exists "", r.
    + apply occurs_in_cons, IH.
Qed.

Lemma path_suffix_occurs p : occurs_in (path_suffix p) p.
Proof.
  unfold path_suffix. destruct (rfind "." (path_name p)) as [i|].
  - destruct (_ && _); [|apply occurs_in_empty].
    eapply occurs_in_trans; [apply substring_occurs | apply path_name_occurs].
  - apply occurs_in_empty.
Qed.

(** The extension test of the include filter adds nothing: a pattern
    that equals the suffix of the path occurs in the path. *)
Lemma include_match_contains path pattern :
  include_match path pattern = contains pattern path.
Proof.
  unfold include_match.
  destruct (startswith pattern "." && String.eqb (path_suffix path) pattern) eqn:E;
    [|done].
  apply andb_true_iff in E as [_ E]. apply String.eqb_eq in E.
  symmetry. apply contains_spec. rewrite <- E. apply path_suffix_occurs.
Qed.

Lemma existsb_contains l path :
  existsb (λ pattern, contains pattern path) l = true ↔
  ∃ pattern, pattern ∈ l ∧ occurs_in pattern path.
Proof.
  rewrite existsb_exists. split; intros (x & Hx & H); exists x.
  - split; [by apply list_elem_of_In | by apply contains_spec].
  - split; [by apply list_elem_of_In | by apply contains_spec].
Qed.

(** X1. The pattern filter is substring matching throughout: a path is
    processed exactly when no include pattern is configured or some
    include pattern occurs in it, and no exclude pattern occurs in it.
    The file-extension test of [should_process] never decides. *)
Theorem should_process_iff config path :
  should_process config path = true ↔
  (watch_patterns config = [] ∨
   ∃ pattern, pattern ∈ watch_patterns config ∧ occurs_in pattern path)
  ∧ ∀ pattern, pattern ∈ exclude_patterns config → ¬ occurs_in pattern path.
Proof.
  unfold should_process.
  assert (existsb (include_match path) (watch_patterns config)
          = existsb (λ pattern, contains pattern path) (watch_patterns config)) as ->.
  { induction (watch_patterns config) as [|x l IH]; [done|].
    simpl. by rewrite IH, include_match_contains. }
  assert (match watch_patterns config with
          | [] => false
          | _ => negb (existsb (λ pattern, contains pattern path) (watch_patterns config))
          end = false ↔
          (watch_patterns config = [] ∨
           ∃ pattern, pattern ∈ watch_patterns config ∧ occurs_in pattern path)) as Hin.
  { rewrite <- existsb_contains. destruct (watch_patterns config) as [|p l].
    - split; [by left | done].
    - rewrite negb_false_iff. split; [by right | by intros [?|?]]. }
  assert (match exclude_patterns config with
          | [] => false
          | _ => existsb (λ pattern, contains pattern path) (exclude_patterns config)
          end = false ↔
          ∀ pattern, pattern ∈ exclude_patterns config → ¬ occurs_in pattern path) as Hex.
  { assert (match exclude_patterns config with
            | [] => false
            | _ => existsb (λ pattern, contains pattern path) (exclude_patterns config)
            end = existsb (λ pattern, contains pattern path) (exclude_patterns config)) as ->
      by (by destruct (exclude_patterns config)).
    rewrite <- Bool.not_true_iff_false, existsb_contains. split.
    - intros H x Hx Hoc. apply H. eauto.
    - intros H (x & Hx & Hoc). by apply (H x). }
  rewrite <- Hin, <- Hex.
  destruct (match watch_patterns config with [] => _ | _ => _ end),
           (match exclude_patterns config with [] => _ | _ => _ end);
    split; (done || by intros []).
Qed.

(** X2. An empty exclude pattern rejects every path; an empty include
    pattern admits every path that no exclude pattern occurs in. *)
Theorem empty_pattern_matches_every_path config :
  ("" ∈ exclude_patterns config → ∀ path, should_process config path = false)
  ∧ ("" ∈ watch_patterns config →
     ∀ path, should_process config path = true ↔
             ∀ pattern, pattern ∈ exclude_patterns config → ¬ occurs_in pattern path).
Proof.
  split.
  - intros Hin path. apply Bool.not_true_is_false. rewrite should_process_iff.
    intros [_ He]. apply (He "" Hin), occurs_in_empty.
  - intros Hin path. rewrite should_process_iff. split; [by intros [_ ?]|].
    intros He. split; [|done]. right. exists "". split; [done | apply occurs_in_empty].
Qed.

(** ** Classification *)

Lemma changed_same info : changed info info = false.
Proof.
  unfold changed. rewrite Bool.eqb_reflx, Z.eqb_refl.
  assert (Qeq_bool (fi_mtime info) (fi_mtime info) = true) as ->
    by (apply Qeq_bool_iff; reflexivity).
  done.
Qed.

Section Unchanged.
Context (w : World) (config : WatcherConfig).

Lemma compare_path_same current_states path st :
  file_states st = current_states →
  compare_path w config current_states path st = (tt, st).
Proof.
  intros E. unfold compare_path, mbind, M_bind, get. rewrite E.
  destruct (current_states !! path) as [info|]; [|done].
  by rewrite changed_same.
Qed.

Lemma for_each_compare_same current_states l : ∀ st,
  file_states st = current_states →
  for_each l (compare_path w config current_states) st = (tt, st).
Proof.
  induction l as [|p l IH]; intros st E; [done|].
  simpl. unfold mbind, M_bind. rewrite compare_path_same by done. by apply IH.
Qed.
End Unchanged.

(** X3. A current snapshot set equal to the stored one: the comparison
    calls [handle_change] for no path, logs nothing and runs nothing; it
    leaves the state as it was but for the tick. *)
Theorem unchanged_scan_is_silent w config st :
  exec (detect_changes w config (file_states st)) st = set_tick (S (tick st)) st
  ∧ produced (detect_changes w config (file_states st)) st = [].
Proof.
  assert (exec (detect_changes w config (file_states st)) st
          = set_tick (S (tick st)) st) as E.
  { rewrite detect_changes_exec. unfold exec.
    rewrite for_each_compare_same by done. by destruct st. }
  split; [done|]. unfold produced. rewrite E. cbn. apply drop_all.
Qed.



(** ** Scanner *)

Section ScanMetadata.
Context (w : World) (config : WatcherConfig).

Lemma scan_files_stable root files : ∀ file_map st,
  let r := fold_each files (scan_file w root) file_map st in
  (tick st ≤ tick r.2)%nat
  ∧ (keyed file_map → keyed r.1)
  ∧ ∀ q a, stat_is w q a st r.2 →
      q ∈ os_path_join root <$> files ∨ file_map !! q = Some (snapshot_of q a) →
      r.1 !! q = Some (snapshot_of q a).
Proof.
  induction files as [|f files IH]; intros file_map st.
  - simpl. split; [lia|]. split; [done|].
    intros q a _ [H|H]; [by apply elem_of_nil in H | done].
  - rewrite fold_each_cons. unfold eval, exec. rewrite scan_file_run.
    cbn [fst snd].
    match goal with |- context [fold_each files _ ?fm ?s] =>
      specialize (IH fm s); destruct (fold_each files _ fm s) as [fm' st'] end.
    cbn [fst snd tick trace set_tick] in *. destruct IH as (Ht & Hk & Hq).
    split; [lia|]. split.
    { intros Hkeyed. apply Hk. intros q info.
      destruct (decide (os_path_join root f = q)) as [<-|Hne].
      - rewrite lookup_insert_eq. intros [= <-].
        by destruct (os_stat w (tick st) (os_path_join root f)) as [[m s]|].
      - rewrite lookup_insert_ne by done. apply Hkeyed. }
    intros q a Hstat Hin. unfold stat_is in *. cbn [tick set_tick] in *.
    apply Hq.
    { intros n Hn. apply Hstat. lia. }
    destruct (decide (q = os_path_join root f)) as [->|Hne].
    + right. rewrite lookup_insert_eq. rewrite Hstat; [done | lia].
    + destruct Hin as [Hin|Hin].
      * left. rewrite fmap_cons in Hin. apply elem_of_cons in Hin as [?|?]; done.
      * right. by rewrite lookup_insert_ne.
Qed.

Lemma scan_entries_stable entries : ∀ file_map st,
  let r := fold_each entries (scan_files w) file_map st in
  (tick st ≤ tick r.2)%nat
  ∧ (keyed file_map → keyed r.1)
  ∧ ∀ q a, stat_is w q a st r.2 →
      q ∈ ('(root, files) ← entries; os_path_join root <$> files)
      ∨ file_map !! q = Some (snapshot_of q a) →
      r.1 !! q = Some (snapshot_of q a).
Proof.
  induction entries as [|[root files] entries IH]; intros file_map st.
  - simpl. split; [lia|]. split; [done|].
    intros q a _ [H|H]; [by apply elem_of_nil in H | done].
  - rewrite fold_each_cons. unfold eval, exec. cbn [scan_files].
    pose proof (scan_files_stable root files file_map st) as H1.
    destruct (fold_each files _ file_map st) as [fm1 st1].
    cbn [fst snd] in *. destruct H1 as (Ht1 & Hk1 & Hq1).
    specialize (IH fm1 st1).
    destruct (fold_each entries _ fm1 st1) as [fm2 st2].
    cbn [fst snd] in *. destruct IH as (Ht2 & Hk2 & Hq2).
    split; [lia|]. split; [auto|].
    intros q a Hstat Hin. unfold stat_is in *. apply Hq2.
    { intros n Hn. apply Hstat. lia. }
    rewrite bind_cons, elem_of_app in Hin.
    destruct Hin as [[Hin|Hin]|Hin].
    + right. apply Hq1; [|by left]. intros n Hn. apply Hstat. lia.
    + by left.
    + right. apply Hq1; [|by right]. intros n Hn. apply Hstat. lia.
Qed.
End ScanMetadata.

(** X5. A listed file on which [os.stat] gives the same answer
    throughout a scan is recorded with the snapshot of that answer: its
    modification time and size with [exists] true, or the absent
    snapshot. *)
Theorem scan_records_metadata w config directory st q a :
  q ∈ listed_paths w config (tick st) directory →
  stat_is w q a st (exec (_scan_directory w config directory) st) →
  eval (_scan_directory w config directory) st !! q = Some (snapshot_of q a).
Proof.
  intros Hin Hstat. unfold eval, exec in *. rewrite _scan_directory_run in *.
  match goal with |- context [fold_each ?l _ ?fm ?s] =>
    pose proof (scan_entries_stable w l fm s) as H end.
  destruct (fold_each _ _ _ _) as [fm st']. cbn [fst snd tick set_tick] in *.
  destruct H as (_ & _ & Hq). apply Hq; [|by left].
  intros n Hn. apply Hstat. cbn [tick set_tick set_trace] in Hn. lia.
Qed.

(** X6. Every snapshot in a scan result is stored under its own
    path. *)
Theorem scan_result_is_keyed w config directory st :
  keyed (eval (_scan_directory w config directory) st).
Proof.
  unfold eval. rewrite _scan_directory_run.
  match goal with |- context [fold_each ?l _ ?fm ?s] =>
    pose proof (scan_entries_stable w l fm s) as H end.
  destruct (fold_each _ _ _ _) as [fm st']. cbn [fst snd] in *.
  destruct H as (_ & Hk & _). apply Hk. intros q info H.
  by rewrite lookup_empty in H.
Qed.

(** X7. With recursion off a scan holds exactly the files of the first
    directory [os.walk] yields. *)
Theorem scan_without_recursion w config directory st root files rest :
  recurse config = false →
  os_walk w (tick st) directory = (root, files) :: rest →
  dom (eval (_scan_directory w config directory) st)
  = list_to_set (os_path_join root <$> files).
Proof.
  intros Hr Hw.
  destruct (_scan_directory_spec w config directory st) as (_ & _ & Hd & _).
  unfold eval. rewrite Hd. unfold listed_paths, visited. rewrite Hr, Hw.
  cbn. by rewrite app_nil_r.
Qed.

(** ** Log history *)

#[export] Instance history_bounded_preorder : PreOrder history_bounded.
Proof. split; unfold history_bounded; [by intros x | intros ???; auto]. Qed.

(** A preorder that the single updates respect, the log history being
    updated by [_log_to_file] only and the stop flag being set in
    oneshot mode only, is respected by a whole poll cycle. *)
Section Throughout.
Context (w : World) (config : WatcherConfig).
Context (R : relation State) `{!PreOrder R}.
Hypothesis R_tick : ∀ st, R st (set_tick (S (tick st)) st).
Hypothesis R_trace : ∀ st e, R st (set_trace (trace st ++ [e]) st).
Hypothesis R_log : ∀ msg, respects R (_log_to_file msg).
Hypothesis R_last : ∀ st x, R st (set_last_change x st).
Hypothesis R_flag : oneshot config = true → ∀ st, R st (set_stop_flag true st).
Hypothesis R_states : ∀ st x, R st (set_file_states x st).

Ltac update_step :=
  let st := fresh "st" in
  intros st; unfold exec, modify, emit, next_tick, get; cbn [snd]; auto.

Ltac throughout :=
  repeat first [ respects_step | solve [update_step] ].

Lemma log_throughout msg : respects R (log w config msg).
Proof. unfold log. throughout. Qed.
Hint Resolve log_throughout : fw.

Lemma launch_throughout c e : respects R (launch w config c e).
Proof.
  unfold launch. destruct (oneshot config) eqn:Ho; cbn [when]; throughout.
Qed.
Hint Resolve launch_throughout : fw.

Lemma _run_command_throughout c e p : respects R (_run_command w config c e p).
Proof. unfold _run_command, _should_run. throughout. Qed.
Hint Resolve _run_command_throughout : fw.

Lemma handle_change_throughout p o n : respects R (handle_change w config p o n).
Proof. unfold handle_change. throughout. Qed.
Hint Resolve handle_change_throughout : fw.

Lemma FileInfo_init_throughout p : respects R (FileInfo_init w p).
Proof. unfold FileInfo_init, FileInfo_update. throughout. Qed.
Hint Resolve FileInfo_init_throughout : fw.

Lemma _scan_directory_throughout d : respects R (_scan_directory w config d).
Proof. unfold _scan_directory, scan_files, scan_file. throughout. Qed.
Hint Resolve _scan_directory_throughout : fw.

Lemma compare_path_throughout cs p : respects R (compare_path w config cs p).
Proof. unfold compare_path, call_handle_change. throughout. Qed.
Hint Resolve compare_path_throughout : fw.

Lemma poll_cycle_throughout wp : respects R (poll_cycle w config wp).
Proof. unfold poll_cycle, scan_all, detect_changes, iter_set. throughout. Qed.

Lemma initial_scan_throughout wp : respects R (initial_scan w config wp).
Proof. unfold initial_scan. throughout. Qed.
End Throughout.

Lemma _log_to_file_bound message st :
  (length (log_history (exec (_log_to_file message) st)) ≤ 1000)%nat
  ∧ last (log_history (exec (_log_to_file message) st)) = Some message.
Proof.
  unfold exec, _log_to_file, modify. cbn [snd log_history set_log_history].
  destruct (1000 <? length (log_history st ++ [message]))%nat eqn:E.
  - apply Nat.ltb_lt in E. split.
    + rewrite length_drop. lia.
    + transitivity (last (log_history st ++ [message])); [|apply last_snoc].
      rewrite !last_lookup, lookup_drop, length_drop. f_equal. lia.
  - apply Nat.ltb_ge in E. split; [done | apply last_snoc].
Qed.

(** X8. [log] leaves at most 1000 lines in the history, the newest
    being the line just logged; below the bound the line is appended and
    no old line is lost. *)
Theorem log_keeps_history_bounded w config message st :
  let line := "[" +:+ strftime_now w (tick st) +:+ "] " +:+ message in
  let st' := exec (log w config message) st in
  (length (log_history st') ≤ 1000)%nat
  ∧ last (log_history st') = Some line
  ∧ ((length (log_history st) < 1000)%nat → log_history st' = log_history st ++ [line]).
Proof.
  cbv zeta.
  set (line := "[" +:+ strftime_now w (tick st) +:+ "] " +:+ message).
  assert (log_history (exec (log w config message) st)
          = log_history (exec (_log_to_file line) st)) as ->.
  { unfold log. rewrite !exec_bind. unfold eval at 1 2 3, get at 1 2. cbn [fst].
    fold line.
    match goal with |- log_history (exec ?m ?s) = _ =>
      assert (respects (keeps log_history) m) as Hk end.
    { destruct (log_file config) as [f|]; [|respects_tac].
      destruct (nonempty f), (open_append w (tick st) f); respects_tac. }
    rewrite Hk. unfold exec at 1 3, emit, modify. by destruct st. }
  destruct (_log_to_file_bound line st) as [Hb Hl]. split; [done|]. split; [done|].
  intros Hlt. unfold exec, _log_to_file, modify. cbn [snd log_history set_log_history].
  rewrite length_app. cbn [length].
  assert ((1000 <? length (log_history st) + 1)%nat = false) as ->
    by (apply Nat.ltb_ge; lia).
  done.
Qed.

Lemma history_bounded_update st st' :
  log_history st' = log_history st → history_bounded st st'.
Proof. unfold history_bounded. by intros ->. Qed.

Lemma poll_cycle_history w config wp :
  respects history_bounded (poll_cycle w config wp).
Proof.
  apply poll_cycle_throughout; [tc_solve|..].
  all: try (intros; by apply history_bounded_update).
  intros msg st _. apply _log_to_file_bound.
Qed.

Lemma initial_scan_history w config wp :
  respects history_bounded (initial_scan w config wp).
Proof.
  apply initial_scan_throughout; [tc_solve|..].
  all: intros; by apply history_bounded_update.
Qed.

Lemma watch_loop_history w config fuel : ∀ wp,
  respects history_bounded (watch_loop w config fuel wp).
Proof.
  induction fuel as [|fuel IH]; intros wp; simpl; [apply respects_ret; tc_solve|].
  pose proof (poll_cycle_history w config wp). unfold stop.
  repeat first [ respects_step
               | solve [intros [] ; by apply history_bounded_update] ].
Qed.

(** X9. However long the watcher runs, the log history never holds
    more than 1000 lines. *)
Theorem log_history_never_exceeds_bound w config fuel :
  (length (log_history (exec (start w config fuel) State_init)) ≤ 1000)%nat.
Proof.
  assert (respects history_bounded (start w config fuel)) as H.
  { pose proof (initial_scan_history w config).
    pose proof (watch_loop_history w config fuel).
    unfold start, resolve_watch_paths, check_root.
    repeat first [ respects_step
                 | solve [intros [] ; by apply history_bounded_update] ]. }
  apply H. cbn. lia.
Qed.

(** ** The loop without oneshot *)

Section NoOneshot.
Context (w : World) (config : WatcherConfig).
Hypothesis Hoff : oneshot config = false.

Lemma poll_cycle_keeps_stop_flag wp :
  respects (keeps stop_flag) (poll_cycle w config wp).
Proof.
  apply poll_cycle_throughout; [tc_solve|..]; unfold respects, keeps;
    first [ by intros [] | intros Hon; congruence ].
Qed.

Lemma initial_scan_keeps_stop_flag wp :
  respects (keeps stop_flag) (initial_scan w config wp).
Proof.
  apply initial_scan_throughout; [tc_solve|..]; unfold respects, keeps;
    first [ by intros [] | intros Hon; congruence ].
Qed.

Lemma watch_loop_never_returns wp :
  (∀ n, sigint w n = false) →
  ∀ fuel st, stop_flag st = false → eval (watch_loop w config fuel wp) st = None.
Proof.
  intros Hsig fuel. induction fuel as [|fuel IH]; intros st Hs; [done|].
  unfold eval. rewrite (watch_loop_step w config fuel wp st Hs (Hsig _)).
  apply IH. by rewrite poll_cycle_keeps_stop_flag.
Qed.
End NoOneshot.

(** X10. Without oneshot mode the watcher never stops by itself: with
    a poll interval that [time.sleep] accepts, a valid watch root and no
    interrupt, [start] is still running after any number of
    iterations. *)
Theorem watcher_runs_until_interrupted w config :
  sleepable (poll_interval config) →
  oneshot config = false →
  (∀ n, sigint w n = false) →
  valid_roots w 0 (effective_watch_dirs w config) ≠ [] →
  ∀ fuel, eval (start w config fuel) State_init = None.
Proof.
  intros _ Hoff Hsig Hroots fuel. unfold eval. rewrite start_run. cbv zeta.
  change (tick State_init) with 0%nat in *.
  destruct (valid_roots w 0 (effective_watch_dirs w config)) as [|d wp] eqn:E; [done|].
  match goal with |- (?m ?s).1 = _ => change ((m s).1) with (eval m s) end.
  rewrite !eval_bind. apply watch_loop_never_returns; [done..|].
  match goal with |- stop_flag (exec ?m ?s) = _ =>
    assert (respects (keeps stop_flag) m) as -> by respects_tac end.
  by rewrite initial_scan_keeps_stop_flag.
Qed.

(** ** Dispatch *)

(** X11. An event for which no command is configured, neither the
    per-event one nor the generic one, runs nothing and leaves the
    debounce clock, the tick and the stop flag alone. *)
Theorem handle_change_without_command w config path old_info new_info st :
  resolved_command config (event_type old_info new_info) = "" →
  let st' := exec (handle_change w config path old_info new_info) st in
  commands (produced (handle_change w config path old_info new_info) st) = []
  ∧ last_change st' = last_change st
  ∧ tick st' = tick st
  ∧ stop_flag st' = stop_flag st.
Proof.
  intros Hres. cbv zeta.
  destruct (should_process config path) eqn:Hp.
  2: { unfold produced, exec, handle_change. rewrite Hp. cbn.
       by rewrite drop_all. }
  rewrite (handle_change_exec w config path old_info new_info st Hp), Hres.
  set (shown := when (show_events config)
                  (log w config (event_message (event_type old_info new_info) path))).
  change (exec (_run_command w config "" (event_type old_info new_info) path)
            (exec shown st)) with (exec shown st).
  assert (respects (runs []) shown) as Hr by (unfold shown; apply respects_when;
    [tc_solve | apply log_runs]).
  assert (respects (keeps last_change) shown) as Hl by (unfold shown; apply respects_when;
    [tc_solve | apply log_keeps_last_change]).
  assert (respects (keeps tick) shown) as Ht by (unfold shown; apply respects_when;
    [tc_solve | apply log_keeps_tick]).
  assert (respects (keeps stop_flag) shown) as Hs by (unfold shown; apply respects_when;
    [tc_solve | apply log_keeps_stop]).
  split; [|by rewrite Hl, Ht, Hs].
  apply runs_produced.
  rewrite (handle_change_exec w config path old_info new_info st Hp), Hres.
  apply Hr.
Qed.

#[export] Instance stays_quiet_preorder w config : PreOrder (stays_quiet w config).
Proof.
  split.
  - intros st. split; [done|]. intros _. split; [done | reflexivity].
  - intros x y z [T1 H1] [T2 H2]. split; [lia|]. intros Hw.
    destruct H1 as [L1 R1]. { intros n Hn. apply Hw. lia. }
    destruct H2 as [L2 R2]. { intros n Hn. rewrite L1. apply Hw. lia. }
    split; [congruence | by etrans].
Qed.

(** A preorder respected by [handle_change] and by the updates of the
    watch loop is respected by a whole poll cycle. *)
Section AboveHandle.
Context (w : World) (config : WatcherConfig).
Context (R : relation State) `{!PreOrder R}.
Hypothesis R_tick : ∀ st, R st (set_tick (S (tick st)) st).
Hypothesis R_change : ∀ st p o n, R st (set_trace (trace st ++ [Change p o n]) st).
Hypothesis R_scan : ∀ st d, R st (set_trace (trace st ++ [Scan d]) st).
Hypothesis R_handle : ∀ p o n, respects R (handle_change w config p o n).
Hypothesis R_states : ∀ st x, R st (set_file_states x st).

Ltac update_step :=
  let st := fresh "st" in
  intros st; unfold exec, modify, emit, next_tick, get; cbn [snd]; auto.

Ltac above := repeat first [ respects_step | solve [update_step] ].

Lemma FileInfo_init_above p : respects R (FileInfo_init w p).
Proof. unfold FileInfo_init, FileInfo_update. above. Qed.
Hint Resolve FileInfo_init_above : fw.

Lemma _scan_directory_above d : respects R (_scan_directory w config d).
Proof. unfold _scan_directory, scan_files, scan_file. above. Qed.
Hint Resolve _scan_directory_above : fw.

Lemma compare_path_above cs p : respects R (compare_path w config cs p).
Proof. unfold compare_path, call_handle_change. above. Qed.
Hint Resolve compare_path_above : fw.

Lemma poll_cycle_above wp : respects R (poll_cycle w config wp).
Proof. unfold poll_cycle, scan_all, detect_changes, iter_set. above. Qed.
End AboveHandle.

(** [handle_change] respects a preorder that logging and [_run_command]
    respect. *)
Lemma handle_change_above w config (R : relation State) `{!PreOrder R} :
  (∀ msg, respects R (log w config msg)) →
  (∀ c e p, respects R (_run_command w config c e p)) →
  ∀ p o n, respects R (handle_change w config p o n).
Proof. intros Hlog Hrun p o n. unfold handle_change. respects_tac. Qed.

Section Burst.
Context (w : World) (config : WatcherConfig).

Lemma stays_quiet_update st st' :
  (tick st ≤ tick st')%nat → last_change st' = last_change st →
  runs [] st st' → stays_quiet w config st st'.
Proof. intros. split; [done|]. by intros _. Qed.

Lemma log_stays_quiet msg : respects (stays_quiet w config) (log w config msg).
Proof.
  intros st. apply stays_quiet_update.
  - by rewrite log_keeps_tick.
  - apply log_keeps_last_change.
  - apply log_runs.
Qed.

Lemma _run_command_stays_quiet c e p :
  respects (stays_quiet w config) (_run_command w config c e p).
Proof.
  intros st. destruct (nonempty c) eqn:Hc.
  2: { unfold _run_command. rewrite Hc. reflexivity. }
  destruct (Qle_bool (inject_Z (debounce_ms config))
              ((time_time w (tick st) - last_change st) * 1000)) eqn:He.
  - (* the test passes: the window is not open *)
    apply Qle_bool_iff in He.
    rewrite (_run_command_fires w config c e p st Hc He).
    assert (tick st < tick (exec (launch w config c e)
              (set_last_change (time_time w (tick st)) (set_tick (S (tick st)) st))))%nat
      as Ht.
    { assert (respects tick_le (launch w config c e)) as Hl.
      { unfold launch. pose proof (log_keeps_tick w config) as Hk.
        assert (∀ msg, respects tick_le (log w config msg)) as Hlog.
        { intros msg s. unfold tick_le. by rewrite Hk. }
        respects_tac. }
      specialize (Hl (set_last_change (time_time w (tick st)) (set_tick (S (tick st)) st))).
      unfold tick_le in Hl. cbn [tick set_last_change set_tick] in Hl. lia. }
    split; [lia|]. intros Hw. exfalso.
    specialize (Hw (tick st)). apply Qlt_not_le in Hw; [done | lia].
  - assert (¬ elapsed_ok w config st) as Hn.
    { unfold elapsed_ok. rewrite <- Qle_bool_iff, He. discriminate. }
    rewrite (_run_command_drops w config c e p st Hc Hn).
    pose proof (respects_when (stays_quiet w config) (show_events config) _
                  (log_stays_quiet ("⏳ Debouncing: " +:+ p))) as Hlog.
    etrans; [|apply Hlog].
    apply stays_quiet_update; [cbn; lia | done | by destruct st; exists []; rewrite app_nil_r].
Qed.

Lemma poll_cycle_stays_quiet wp :
  respects (stays_quiet w config) (poll_cycle w config wp).
Proof.
  apply poll_cycle_above; [tc_solve|..].
  - intros st. apply stays_quiet_update; [cbn; lia | done |].
    destruct st. exists []. by rewrite app_nil_r.
  - intros st p o n. apply stays_quiet_update; [done | done |].
    destruct st. by eexists [_].
  - intros st d. apply stays_quiet_update; [done | done |].
    destruct st. by eexists [_].
  - apply handle_change_above; [tc_solve | apply log_stays_quiet
                                 | apply _run_command_stays_quiet].
  - intros st x. apply stays_quiet_update; [done | done |].
    destruct st. exists []. by rewrite app_nil_r.
Qed.
End Burst.

(** X12. While the debounce window since the last trigger is open, a
    whole poll cycle runs no command, however many files changed, and
    does not move the last trigger time. *)
Theorem poll_cycle_within_window w config watch_paths st :
  window_open w config st (exec (poll_cycle w config watch_paths) st) →
  commands (produced (poll_cycle w config watch_paths) st) = []
  ∧ last_change (exec (poll_cycle w config watch_paths) st) = last_change st.
Proof.
  intros Hw. destruct (poll_cycle_stays_quiet w config watch_paths st) as [_ H].
  destruct (H Hw) as [Hl Hr]. split; [by apply runs_produced | done].
Qed.

Section Configured.
Context (w : World) (config : WatcherConfig) (P : string → Prop).

Lemma grows_silent st st' :
  runs [] st st' → grows (runs_only P) st st'.
Proof.
  intros (tr & E & C). exists tr. split; [done|].
  clear E. induction tr as [|e tr IH]; [constructor|].
  destruct e; cbn in C; try discriminate C; constructor;
    first [ by intros c [=] | by apply IH ].
Qed.

Lemma log_runs_only msg : respects (grows (runs_only P)) (log w config msg).
Proof. intros st. apply grows_silent, log_runs. Qed.

Lemma launch_runs_only c e : P c → respects (grows (runs_only P)) (launch w config c e).
Proof.
  intros Hc. unfold launch. pose proof log_runs_only.
  assert (respects (grows (runs_only P)) (emit (Exec c))) as Hexec.
  { intros []. eexists [_]. split; [reflexivity|].
    constructor; [|constructor]. by intros c' [= <-]. }
  repeat first
    [ respects_step
    | solve [intros st; apply grows_silent; destruct st; first
               [ exists []; by rewrite app_nil_r | by eexists [_] ]] ].
Qed.

Lemma _run_command_runs_only c e p :
  (c ≠ "" → P c) → respects (grows (runs_only P)) (_run_command w config c e p).
Proof.
  intros Hc. unfold _run_command, _should_run.
  destruct (nonempty c) eqn:Hn; cbn [negb]; [|apply respects_ret; tc_solve].
  assert (P c) as HP.
  { apply Hc. intros ->. discriminate Hn. }
  pose proof log_runs_only. pose proof (launch_runs_only c e HP).
  repeat first
    [ respects_step
    | solve [intros st; apply grows_silent; destruct st; first
               [ exists []; by rewrite app_nil_r | by eexists [_] ]] ].
Qed.
End Configured.

Lemma resolved_command_configured config e :
  resolved_command config e ≠ "" → configured config (resolved_command config e).
Proof.
  intros Hne. split; [done|]. unfold resolved_command, event_command.
  destruct (nonempty _); [|set_solver].
  destruct (String.eqb e "delete"); [set_solver|].
  destruct (String.eqb e "create"); set_solver.
Qed.

Lemma handle_change_runs_configured w config p o n :
  respects (grows (runs_only (configured config))) (handle_change w config p o n).
Proof.
  intros st. unfold exec. rewrite handle_change_by_type.
  match goal with |- grows _ _ (?m st).2 =>
    change ((m st).2) with (exec m st); revert st;
    change (respects (grows (runs_only (configured config))) m) end.
  pose proof (log_runs_only w config (configured config)).
  pose proof (_run_command_runs_only w config (configured config)
                (resolved_command config (event_type o n)) (event_type o n) p
                (resolved_command_configured config (event_type o n))).
  respects_tac.
Qed.

(** X15. Every command a poll cycle runs is a non-empty one of
    [on_delete], [on_create], [on_modify] and [command]. *)
Theorem poll_cycle_runs_configured_commands w config watch_paths st c :
  c ∈ commands (produced (poll_cycle w config watch_paths) st) →
  configured config c.
Proof.
  assert (respects (grows (runs_only (configured config)))
            (poll_cycle w config watch_paths)) as H.
  { apply poll_cycle_above; [tc_solve|..].
    - intros []. exists []. split; [by rewrite app_nil_r | constructor].
    - intros [] p o n. eexists [_]. split; [reflexivity|].
      constructor; [by intros c' [=] | constructor].
    - intros [] d. eexists [_]. split; [reflexivity|].
      constructor; [by intros c' [=] | constructor].
    - apply handle_change_runs_configured.
    - intros [] x. exists []. split; [by rewrite app_nil_r | constructor]. }
  destruct (H st) as (tr & E & F). rewrite (produced_spec _ _ tr E).
  clear E. induction F as [|e tr He _ IH]; [by intros ?%elem_of_nil|].
  destruct e; cbn; try done.
  intros [->|Hin]%elem_of_cons; [by apply He | by apply IH].
Qed.

(** ** Startup *)

Lemma start_without_fuel w config :
  valid_roots w 0 (effective_watch_dirs w config) ≠ [] →
  exec (start w config 0) State_init =
    exec (when (initial_run config && nonempty (command config))
            (_ ← next_tick; emit (Exec (command config))))
      (exec (initial_scan w config (valid_roots w 0 (effective_watch_dirs w config)))
         (set_tick (length (effective_watch_dirs w config)) State_init)).
Proof.
  intros Hne. unfold exec at 1. rewrite start_run. cbv zeta.
  change (tick State_init) with 0%nat.
  destruct (valid_roots w 0 (effective_watch_dirs w config)) as [|d wp]; [done|].
  match goal with |- (?m ?s).2 = _ => change ((m s).2) with (exec m s) end.
  by rewrite !exec_bind.
Qed.

(** X13. Startup with a valid root: each valid root is scanned once, in
    order; then the generic command is run once if [initial_run] is set
    and the command is not empty, outside the debounce clock and without
    setting the stop flag. *)
Theorem startup_effects w config :
  let roots := valid_roots w 0 (effective_watch_dirs w config) in
  let st' := exec (start w config 0) State_init in
  roots ≠ [] →
  produced (start w config 0) State_init
    = (Scan <$> roots)
      ++ (if initial_run config && nonempty (command config)
          then [Exec (command config)] else [])
  ∧ last_change st' = 0%Q
  ∧ stop_flag st' = false.
Proof.
  cbv zeta. intros Hne. unfold produced.
  rewrite (start_without_fuel w config Hne). cbn [trace State_init length drop].
  set (roots := valid_roots w 0 (effective_watch_dirs w config)) in *.
  set (st0 := set_tick (length (effective_watch_dirs w config)) State_init) in *.
  pose proof (initial_scan_trace w config roots st0) as Htr.
  assert (last_change (exec (initial_scan w config roots) st0) = 0%Q) as Hl.
  { assert (respects (keeps last_change) (initial_scan w config roots)) as ->; [|done].
    apply initial_scan_throughout; [tc_solve|..]; unfold respects, keeps; by intros []. }
  assert (stop_flag (exec (initial_scan w config roots) st0) = false) as Hs.
  { assert (respects (keeps stop_flag) (initial_scan w config roots)) as ->; [|done].
    apply initial_scan_throughout; [tc_solve|..]; unfold respects, keeps; by intros []. }
  destruct (exec (initial_scan w config roots) st0) as [lc fs sf lh tk tr].
  cbn in Htr, Hl, Hs. subst.
  destruct (initial_run config && nonempty (command config)); cbn; by rewrite ?app_nil_r.
Qed.

(** ** Command line and configuration files *)

Lemma typed_strings_json l : typed_strings (json_strings l) = Some l.
Proof.
  unfold typed_strings, json_strings.
  induction l as [|x l IH]; [done|]. cbn. rewrite IH. done.
Qed.

Lemma typed_attributes c : typed (attributes c) = Some c.
Proof.
  destruct c as [dirs pats excl cmd oc om od omv db poll rec one ini sh lf].
  unfold typed, attributes. cbn -[typed_strings json_strings].
  rewrite !typed_strings_json. cbn. by destruct lf.
Qed.

Lemma json_load_object_lookup members k :
  (∀ v, (k, v) ∉ members) → json_load_object members !! k = None.
Proof.
  unfold json_load_object. intros H.
  assert (∀ (data : gmap string json), data !! k = None →
          foldl (λ data kv, <[kv.1 := kv.2]> data) data members !! k = None) as Hf.
  { induction members as [|[k' v'] members IH]; intros data Hd; [done|].
    simpl. apply IH.
    - intros v Hv. apply (H v). by apply list_elem_of_further.
    - rewrite lookup_insert_ne; [done|]. intros ->. apply (H v'), list_elem_of_here. }
  apply Hf, lookup_empty.
Qed.

(** X19. A configuration file with none of the fifteen keys loads as
    the defaults of [WatcherConfig.__init__]; keys it holds besides are
    ignored. *)
Theorem load_config_defaults filepath files members :
  files !! filepath = Some (JObject members) →
  (∀ k v, (k, v) ∈ members → k ∉ config_keys) →
  load_config filepath files = Some (attributes WatcherConfig_init).
Proof.
  intros Hf Hk. unfold load_config. rewrite Hf.
  assert (∀ k, k ∈ config_keys → json_load_object members !! k = None) as Hnone.
  { intros k Hin. apply json_load_object_lookup. intros v Hv. by apply (Hk k v). }
  unfold dict_get.
  rewrite !Hnone by (unfold config_keys; set_solver).
  reflexivity.
Qed.

(** X16. Without [--load-config] the debounce window is the value of
    [--debounce], except that 0 is taken as "not given" and leaves the
    default 300: the window is never 0. *)
Theorem fresh_config_debounce args files c :
  truthy (arg_load_config args) = false →
  main_config args files = Some (Some c) →
  debounce_ms c = (if (arg_debounce args =? 0)%Z then 300%Z else arg_debounce args)
  ∧ debounce_ms c ≠ 0%Z.
Proof.
  intros Hl Hc. unfold main_config in Hc.
  assert (c = apply_options args (apply_settings args)) as ->.
  { destruct (arg_load_config args) as [f|]; [|congruence].
    cbn in Hl. rewrite Hl in Hc. congruence. }
  cbn. destruct (arg_debounce args =? 0)%Z eqn:E; [done|].
  split; [done|]. by apply Z.eqb_neq.
Qed.

(** X17. With [--load-config] the watch roots, the patterns and the
    five commands are those of the file: what the command line says
    about them is ignored. *)
Theorem loaded_config_ignores_settings args files f loaded c0 :
  arg_load_config args = Some f → nonempty f = true →
  load_config f files = Some loaded → typed loaded = Some c0 →
  ∃ c, main_config args files = Some (Some c)
    ∧ watch_dirs c = watch_dirs c0
    ∧ watch_patterns c = watch_patterns c0
    ∧ exclude_patterns c = exclude_patterns c0
    ∧ command c = command c0
    ∧ on_create c = on_create c0
    ∧ on_modify c = on_modify c0
    ∧ on_delete c = on_delete c0
    ∧ on_move c = on_move c0.
Proof.
  intros Ha Hn Hl Ht. unfold main_config. rewrite Ha, Hn, Hl, Ht.
  eexists. split; [reflexivity|]. repeat split.
Qed.

Lemma load_saved c f files :
  load_config f (save_config c f files) = Some (attributes c).
Proof. unfold load_config, save_config. rewrite lookup_insert_eq. reflexivity. Qed.

Lemma main_config_load_saved c f files :
  nonempty f = true →
  main_config (Args_load f) (save_config c f files)
  = Some (Some (with_timing 300 1 c)).
Proof.
  intros Hn. unfold main_config. cbn [arg_load_config Args_load]. rewrite Hn.
  rewrite load_saved, typed_attributes. reflexivity.
Qed.

(** X18. Whatever [main] saves with [--save-config], it returns 0, and
    loading the file with [--load-config] alone gives the saved record
    except for the debounce window and the poll interval, which the
    defaults 300 and 1.0 of the command line replace. *)
Theorem saved_config_loads_with_default_timing w args files fuel files' code :
  main w args files fuel = Saved files' code →
  ∃ c f, main_config args files = Some (Some c)
    ∧ arg_save_config args = Some f
    ∧ files' = save_config c f files
    ∧ code = 0%Z
    ∧ main_config (Args_load f) files' = Some (Some (with_timing 300 1 c)).
Proof.
  unfold main. destruct (main_config args files) as [[c|]|]; [|done..].
  destruct (arg_save_config args) as [f|]; [|done].
  destruct (nonempty f) eqn:Hn; [|done].
  intros [= <- <-]. exists c, f. repeat split.
  by apply main_config_load_saved.
Qed.

(** ** Instances of the further properties *)

Lemma empty_pattern_matches_every_path_witness :
  should_process config_blank_exclude "/w/a.py" = false
  ∧ (should_process config_blank_include "/w/notes.txt" = true ↔
     ∀ pattern, pattern ∈ exclude_patterns config_blank_include →
                ¬ occurs_in pattern "/w/notes.txt").
Proof.
  split.
  - apply (proj1 (empty_pattern_matches_every_path config_blank_exclude)).
    vm_compute. apply list_elem_of_further, list_elem_of_here.
  - apply (proj2 (empty_pattern_matches_every_path config_blank_include)).
    vm_compute. apply list_elem_of_further, list_elem_of_here.
Defined.



Lemma scan_records_metadata_witness :
  eval (_scan_directory world_dangling config_show "/w") State_init !! "/w/a.py"
  = Some (snapshot_of "/w/a.py" (Some (100%Q, 10%Z))).
Proof.
  apply (scan_records_metadata world_dangling config_show "/w" State_init "/w/a.py").
  - vm_compute. apply list_elem_of_further, list_elem_of_here.
  - intros n _. reflexivity.
Defined.

Lemma scan_without_recursion_witness :
  dom (eval (_scan_directory world_dangling config_flat "/w") State_init)
  = list_to_set (os_path_join "/w" <$> ["link"; "a.py"]).
Proof.
  apply (scan_without_recursion world_dangling config_flat "/w" State_init
           "/w" ["link"; "a.py"] []); reflexivity.
Defined.

Lemma log_keeps_history_bounded_witness :
  let st' := exec (log world_a_py config_show "hello") State_init in
  (length (log_history st') ≤ 1000)%nat
  ∧ last (log_history st') = Some "[12:00:00] hello"
  ∧ log_history st' = ["[12:00:00] hello"].
Proof.
  destruct (log_keeps_history_bounded world_a_py config_show "hello" State_init)
    as (H1 & H2 & H3).
  cbv zeta. split; [exact H1|]. split; [exact H2|].
  apply H3. cbn. lia.
Defined.

Lemma watcher_runs_until_interrupted_witness :
  eval (start world_steady config_hooks 7) State_init = None.
Proof.
  apply (watcher_runs_until_interrupted world_steady config_hooks).
  - split; vm_compute; discriminate.
  - reflexivity.
  - intros n. reflexivity.
  - vm_compute. discriminate.
Defined.

Lemma handle_change_without_command_witness :
  let m := handle_change world_a_py config_show "/w/a.py" (a_py 100 10) (a_py 150 10) in
  commands (produced m State_init) = []
  ∧ last_change (exec m State_init) = last_change State_init
  ∧ tick (exec m State_init) = tick State_init
  ∧ stop_flag (exec m State_init) = stop_flag State_init.
Proof.
  apply (handle_change_without_command world_a_py config_show "/w/a.py"
           (a_py 100 10) (a_py 150 10) State_init).
  reflexivity.
Defined.

Lemma poll_cycle_within_window_witness :
  let st := set_last_change 1800000000 (with_states {["/w/a.py" := a_py 100 10]}) in
  commands (produced (poll_cycle world_steady config_hooks ["/w"]) st) = []
  ∧ last_change (exec (poll_cycle world_steady config_hooks ["/w"]) st)
    = last_change st.
Proof.
  apply (poll_cycle_within_window world_steady config_hooks ["/w"]).
  intros n _. vm_compute. reflexivity.
Defined.

Lemma startup_effects_witness :
  produced (start world_a_py config_initial 0) State_init
    = [Scan "/w"; Exec "pytest"]
  ∧ last_change (exec (start world_a_py config_initial 0) State_init) = 0%Q
  ∧ stop_flag (exec (start world_a_py config_initial 0) State_init) = false.
Proof.
  apply (startup_effects world_a_py config_initial).
  vm_compute. discriminate.
Defined.

Lemma poll_cycle_runs_configured_commands_witness :
  configured config_hooks "echo modified".
Proof.
  apply (poll_cycle_runs_configured_commands world_steady config_hooks ["/w"]
           (with_states {["/w/a.py" := a_py 100 10]})).
  vm_compute. apply list_elem_of_here.
Defined.

Lemma load_config_defaults_witness :
  load_config "w.json" {["w.json" := JObject [("comment", JString "none")]]}
  = Some (attributes WatcherConfig_init).
Proof.
  apply (load_config_defaults "w.json" _ [("comment", JString "none")]).
  - reflexivity.
  - intros k v Hkv. apply list_elem_of_singleton in Hkv.
    injection Hkv as -> ->. vm_compute.
    intros H. repeat (apply elem_of_cons in H as [H|H]; [discriminate H|]).
    by apply elem_of_nil in H.
Defined.

Lemma fresh_config_debounce_witness :
  debounce_ms (apply_options args_save (apply_settings args_save)) = 300%Z
  ∧ debounce_ms (apply_options args_save (apply_settings args_save)) ≠ 0%Z.
Proof.
  apply (fresh_config_debounce args_save ∅); reflexivity.
Defined.

Lemma loaded_config_ignores_settings_witness :
  ∃ c, main_config args_load_more (save_config config_hooks "w.json" ∅) = Some (Some c)
    ∧ watch_dirs c = ["/w"]
    ∧ watch_patterns c = [".py"]
    ∧ exclude_patterns c = []
    ∧ command c = "pytest"
    ∧ on_create c = "echo created"
    ∧ on_modify c = "echo modified"
    ∧ on_delete c = "echo deleted"
    ∧ on_move c = "echo moved".
Proof.
  apply (loaded_config_ignores_settings args_load_more
           (save_config config_hooks "w.json" ∅) "w.json"
           (attributes config_hooks) config_hooks); reflexivity.
Defined.

Lemma saved_config_loads_with_default_timing_witness :
  ∃ c f, main_config args_save ∅ = Some (Some c)
    ∧ arg_save_config args_save = Some f
    ∧ save_config (apply_options args_save (apply_settings args_save)) "w.json" ∅
      = save_config c f ∅
    ∧ 0%Z = 0%Z
    ∧ main_config (Args_load f)
        (save_config (apply_options args_save (apply_settings args_save)) "w.json" ∅)
      = Some (Some (with_timing 300 1 c)).
Proof.
  apply (saved_config_loads_with_default_timing world_a_py args_save ∅ 0).
  reflexivity.
Defined.
